(** * The themed in-memory REST service of [app.py]

    A shallow embedding of the request pipeline of [src/app.py]: the static
    theme registry, the in-memory [data_store], the two decorators
    [token_required] and [simulate_errors], the five entity views, the
    [/error-test] view and the [HTTPException] handler, followed by the
    properties of the pipeline.

    Conventions of the embedding.
    - A Python [dict] with string keys is a [gmap string _]; a Python [list]
      is a [list].  JSON values are the inductive [json].
    - A view runs in the monad [M]: it threads the [world] (the module-level
      [data_store] and the log of [time.sleep] calls) and ends by returning a
      value, by [abort(code, description=...)] or by an uncaught Python
      exception.
    - What a view reads from its surroundings is explicit: the request
      ([X-API-Token] header and parsed body), and an [env] holding the
      configuration returned by [get_config()], the values of the successive
      [random.random()] draws, the string [time.strftime] returns and the
      iteration order of the set literal of required fields.
    - The floats of the server (the configuration, the random draws, the
      weights of the error types, the durations handed to [time.sleep]) are
      binary64 floats, with the rounding, the infinities and the NaN of the
      Python ones.  A JSON number of a request body, which the views only
      test for truth and membership, is an integer or a rational; so is the
      retry delay of the test client. *)

From Stdlib Require Import QArith Lqa Floats.
From stdpp Require Import gmap strings list fin_maps pretty.

Local Open Scope string_scope.
Set Warnings "-register-all,-inexact-float".

(** ** JSON values and Python's view of them *)

Inductive json : Type :=
| JNull
| JBool (b : bool)
| JInt (z : Z)
| JFloat (q : Q)
| JStr (s : string)
| JArr (l : list json)
| JObj (m : gmap string json).

(** An entity record is a [dict] from field names to JSON values. *)
Abbreviation record := (gmap string json) (only parsing).

(** Python truthiness, as tested by [if not data]. *)
Definition truthy (v : json) : bool :=
  match v with
  | JNull => false
  | JBool b => b
  | JInt z => negb (z =? 0)%Z
  | JFloat q => negb (Qeq_bool q 0)
  | JStr s => negb (bool_decide (s = ""))
  | JArr l => negb (bool_decide (l = []))
  | JObj m => negb (bool_decide (m = ∅))
  end.

(** [v == s] for a JSON value [v] and a [str] [s]. *)
Definition eq_str (v : json) (s : string) : bool :=
  match v with
  | JStr t => bool_decide (t = s)
  | _ => false
  end.

Fixpoint is_prefix (p s : string) : bool :=
  match p, s with
  | EmptyString, _ => true
  | String a p', String b s' => bool_decide (a = b) && is_prefix p' s'
  | String _ _, EmptyString => false
  end.

(** [p in s] on two [str]: [p] occurs in [s]. *)
Fixpoint occurs_in (p s : string) : bool :=
  is_prefix p s ||
  match s with
  | EmptyString => false
  | String _ s' => occurs_in p s'
  end.

(** ** Worlds, outcomes and the view monad *)

Abbreviation collection := (list (gmap string json)) (only parsing).
Abbreviation store := (gmap string (gmap string (list (gmap string json)))) (only parsing).

Record world := World {
  data_store : store;
  slept : list float      (* arguments of the [time.sleep] calls so far *)
}.

Inductive exn :=
| KeyError (key : string)
| TypeError
| ValueError
| IndexError
| OverflowError.

Inductive outcome (A : Type) : Type :=
| Return (a : A)
| Aborted (code : nat) (description : string)
| Raised (e : exn).
Arguments Return {A} a.
Arguments Aborted {A} code description.
Arguments Raised {A} e.

Definition M (A : Type) : Type := world → outcome A * world.

Definition ret {A} (a : A) : M A := λ w, (Return a, w).

Definition abort {A} (code : nat) (description : string) : M A :=
  λ w, (Aborted code description, w).

Definition raise {A} (e : exn) : M A := λ w, (Raised e, w).

Definition bind {A B} (m : M A) (k : A → M B) : M B :=
  λ w, match m w with
       | (Return a, w') => k a w'
       | (Aborted c d, w') => (Aborted c d, w')
       | (Raised e, w') => (Raised e, w')
       end.

Notation "x <~ m ;; k" := (bind m (λ x, k))
  (at level 100, m at next level, right associativity).
Notation "m ;;; k" := (bind m (λ _, k))
  (at level 100, right associativity).

(** [data_store[theme_id][entity_type]] *)
Definition get_collection (theme_id entity_type : string) : M collection :=
  λ w, match data_store w !! theme_id with
       | None => (Raised (KeyError theme_id), w)
       | Some by_type =>
           match by_type !! entity_type with
           | None => (Raised (KeyError entity_type), w)
           | Some c => (Return c, w)
           end
       end.

(** The in-place mutation of the list [data_store[theme_id][entity_type]]. *)
Definition put_collection (theme_id entity_type : string) (c : collection) : M unit :=
  λ w, match data_store w !! theme_id with
       | None => (Raised (KeyError theme_id), w)
       | Some by_type =>
           (Return tt,
            World (<[theme_id := <[entity_type := c]> by_type]> (data_store w)) (slept w))
       end.

(** What [time.sleep(d)] raises instead of sleeping.  CPython turns the
    float [d] into a count of nanoseconds held in a signed 64-bit integer:
    a NaN is a [ValueError]; the product [d * 1e9], rounded away from zero
    to an integer, is an [OverflowError] when it lies outside
    [-2^63, 2^63]; a negative count is a [ValueError], and so is the count
    [2^63] itself, which the conversion to 64 bits wraps to [-2^63].  Every
    other duration is handed to the operating system's sleep, which is
    taken to return once the time has passed.  (CPython adds the count to
    the reading of the monotonic clock: on a running machine a duration
    within its uptime of [2^63] nanoseconds, 292 years, overflows that sum
    and ends in an [OSError].  The properties that assert a sleep are stated
    for durations of at most [1e9] seconds.) *)
Definition sleep_refusal (d : float) : option exn :=
  let ns := (d * 1e9)%float in
  if is_nan d then Some ValueError
  else if negb ((- 0x1p63 <=? ns)%float && (ns <=? 0x1p63)%float) then
    Some OverflowError
  else if (ns <? 0)%float || (ns =? 0x1p63)%float then Some ValueError
  else None.

(** [time.sleep(d)] *)
Definition py_sleep (d : float) : M unit :=
  λ w, match sleep_refusal d with
       | Some x => (Raised x, w)
       | None => (Return tt, World (data_store w) (slept w ++ [d]))
       end.

(** ** Static configuration: [THEMES] and [ERROR_TYPES] *)

Record theme_info := ThemeInfo {
  theme_name : string;
  theme_description : string;
  theme_entities : list string
}.

(** [THEMES], in the order in which the dict literal lists its keys. *)
Definition THEMES : list (string * theme_info) :=
  [ ("space_exploration",
     ThemeInfo "Space Exploration API"
               "API for managing space missions and astronaut data"
               ["missions"; "astronauts"; "spacecraft"]);
    ("fantasy_rpg",
     ThemeInfo "Fantasy RPG API"
               "API for managing characters, quests and items in a fantasy world"
               ["characters"; "quests"; "items"]);
    ("smart_city",
     ThemeInfo "Smart City API"
               "API for managing smart city infrastructure and services"
               ["traffic_sensors"; "public_transport"; "energy_consumption"]) ].

(** [d[k]] on a dict literal kept in key order; [None] when [k not in d]. *)
Fixpoint assoc {A} (k : string) (d : list (string * A)) : option A :=
  match d with
  | [] => None
  | (k', v) :: d' => if bool_decide (k' = k) then Some v else assoc k d'
  end.

(** [entity_type in THEMES[theme_id]["entities"]] *)
Definition has_entity (t : theme_info) (entity_type : string) : bool :=
  bool_decide (entity_type ∈ theme_entities t).

(** The module-level loop that fills [data_store] with one empty list per
    declared (theme, entity type). *)
Definition initial_store : store :=
  foldl (λ ds p,
           <[p.1 := foldl (λ m entity, <[entity := []]> m) ∅ (theme_entities p.2)]> ds)
        ∅ THEMES.

Record error_type_info := ErrorTypeInfo {
  chance : float;
  error_description : string
}.

(** [ERROR_TYPES], in key order. *)
Definition ERROR_TYPES : list (string * error_type_info) :=
  [ ("timeout", ErrorTypeInfo 0.1 "Server timeout simulation");
    ("rate_limit", ErrorTypeInfo 0.15 "Rate limiting simulation");
    ("server_error", ErrorTypeInfo 0.1 "Internal server error simulation");
    ("validation_error", ErrorTypeInfo 0.2 "Data validation error simulation") ].

(** ** What a request brings and what the process reads around it *)

(** The result of [get_config()]. *)
Record config := Config {
  error_rate : float;
  timeout_seconds : float
}.

Record env := Env {
  cfg : config;
  draw_gate : float;    (* [random.random()] compared with the error rate *)
  draw_choice : float;  (* the [random()] inside [random.choices] *)
  draw_uniform : float; (* the [random()] inside [random.uniform] *)
  now : string;         (* [time.strftime("%Y-%m-%d %H:%M:%S")] *)
  name_first : bool     (* iteration order of [{"name", "description"}] *)
}.

Record request := Request {
  token : option string;     (* [request.headers.get('X-API-Token')] *)
  body : option json;        (* [request.get_json(silent=True)] *)
  arg_type : option string   (* [request.args.get('type')] *)
}.

(** What a view hands back to Flask: [jsonify(body)] with a status. *)
Record reply := Jsonify {
  reply_status : nat;
  reply_body : json
}.

(** A view function taking the route arguments [Args]. *)
Definition view (Args : Type) : Type := Args → request → env → M reply.

(** ** The decorators *)

Definition API_TOKEN : string := "student_test_token".

Definition token_required {Args} (f : view Args) : view Args :=
  λ args req e,
    match token req with
    | None => abort 401 "API token is missing"
    | Some t =>
        if bool_decide (t = "") then abort 401 "API token is missing"
        else if bool_decide (t ≠ API_TOKEN) then abort 403 "Invalid API token"
        else f args req e
    end.

(** [itertools.accumulate]: running sums, the first one being the first
    element itself. *)
Fixpoint accumulate_from (acc : float) (l : list float) : list float :=
  match l with
  | [] => []
  | x :: l' => (acc + x)%float :: accumulate_from (acc + x)%float l'
  end.

Definition accumulate (l : list float) : list float :=
  match l with
  | [] => []
  | x :: l' => x :: accumulate_from x l'
  end.

(** [bisect.bisect_right(a, x, lo, hi)]: the loop
    [while lo < hi: mid = (lo + hi) // 2; if x < a[mid]: hi = mid else: lo = mid + 1].
    [fuel] bounds the number of iterations; [hi - lo] is enough. *)
Fixpoint bisect_loop (fuel : nat) (a : list float) (x : float) (lo hi : nat) : nat :=
  match fuel with
  | O => lo
  | S fuel' =>
      if (lo <? hi)%nat then
        let mid := ((lo + hi) / 2)%nat in
        if (x <? nth mid a 0%float)%float then bisect_loop fuel' a x lo mid
        else bisect_loop fuel' a x (S mid) hi
      else lo
  end.

Definition bisect (a : list float) (x : float) (lo hi : nat) : nat :=
  bisect_loop (hi - lo) a x lo hi.

(** [random.choices(population, weights=weights, k=1)[0]], given the value
    [u] of its [random()] draw:
    [total = cum_weights[-1] + 0.0], refused when it is not positive or not
    finite, then [population[bisect(cum_weights, random() * total, 0, n - 1)]]. *)
Definition random_choices {A} (population : list A) (weights : list float)
    (u : float) : M A :=
  let cum_weights := accumulate weights in
  let n := length population in
  if negb (length cum_weights =? n)%nat then raise ValueError
  else match last cum_weights with
       | None => raise IndexError
       | Some last_weight =>
           let total := (last_weight + 0)%float in
           if (total <=? 0)%float then raise ValueError
           else if negb (is_finite total) then raise ValueError
           else match population !! bisect cum_weights (u * total)%float 0 (n - 1) with
                | Some x => ret x
                | None => raise IndexError
                end
       end.

(** [random.uniform(a, b)], given the value [u] of its [random()] draw:
    [a + (b - a) * random()]. *)
Definition random_uniform (a b u : float) : float := (a + (b - a) * u)%float.

Definition simulate_errors {Args} (f : view Args) : view Args :=
  λ args req e,
    let config := cfg e in
    (if (draw_gate e <? error_rate config)%float then
       error_type <~ random_choices (fst <$> ERROR_TYPES)
                                    ((λ p, chance p.2) <$> ERROR_TYPES)
                                    (draw_choice e) ;;
       if bool_decide (error_type = "timeout") then
         py_sleep (random_uniform 1 (timeout_seconds config) (draw_uniform e))
       else if bool_decide (error_type = "rate_limit") then
         abort 429 "Rate limit exceeded. Try again later."
       else if bool_decide (error_type = "server_error") then
         abort 500 "Internal server error occurred"
       else if bool_decide (error_type = "validation_error") then
         abort 422 "Invalid data format or content"
       else ret tt
     else ret tt) ;;;
    f args req e.

(** ** The entity views *)

(** The two checks that open every entity view:
    [theme_id not in THEMES] and
    [entity_type not in THEMES[theme_id]["entities"]]. *)
Definition check_route (theme_id entity_type : string) : M unit :=
  match assoc theme_id THEMES with
  | None => abort 404 ("Theme '" ++ theme_id ++ "' not found")
  | Some t =>
      if has_entity t entity_type then ret tt
      else abort 404 ("Entity type '" ++ entity_type ++
                      "' not found in theme '" ++ theme_id ++ "'")
  end.

(** [if not data: abort(400, ...)], where [None] is falsy. *)
Definition require_body (data : option json) : M json :=
  match data with
  | None => abort 400 "Invalid JSON data"
  | Some d => if truthy d then ret d else abort 400 "Invalid JSON data"
  end.

(** [field in data]: key membership on a dict, substring on a str, element
    membership on a list, [TypeError] on a number or a boolean. *)
Definition py_in (field : string) (data : json) : M bool :=
  match data with
  | JObj m => ret (bool_decide (is_Some (m !! field)))
  | JStr s => ret (occurs_in field s)
  | JArr l => ret (existsb (λ v, eq_str v field) l)
  | JNull | JBool _ | JInt _ | JFloat _ => raise TypeError
  end.

(** [all(field in data for field in fields)], stopping at the first miss. *)
Fixpoint all_in (fields : list string) (data : json) : M bool :=
  match fields with
  | [] => ret true
  | f :: fs => b <~ py_in f data ;; if b : bool then all_in fs data else ret false
  end.

(** [[field for field in fields if field not in data]] *)
Fixpoint not_in (fields : list string) (data : json) : M (list string) :=
  match fields with
  | [] => ret []
  | f :: fs =>
      b <~ py_in f data ;;
      rest <~ not_in fs data ;;
      ret (if b : bool then rest else f :: rest)
  end.

(** The set literal [{"name", "description"}], in its iteration order. *)
Definition required_fields (e : env) : list string :=
  if name_first e then ["name"; "description"] else ["description"; "name"].

(** [**data] inside a dict display: only a mapping unpacks. *)
Definition unpack (data : json) : M record :=
  match data with
  | JObj m => ret m
  | _ => raise TypeError
  end.

(** [entity[key]] *)
Definition getitem (entity : record) (key : string) : M json :=
  match entity !! key with
  | Some v => ret v
  | None => raise (KeyError key)
  end.

(** The scan [for i, entity in enumerate(...): if entity["id"] == entity_id]
    shared by the get, update and delete views: the first hit with its
    index, counted from [i]. *)
Fixpoint find_entity (c : collection) (entity_id : string) (i : nat)
  : M (option (nat * record)) :=
  match c with
  | [] => ret None
  | entity :: c' =>
      v <~ getitem entity "id" ;;
      if eq_str v entity_id then ret (Some (i, entity))
      else find_entity c' entity_id (S i)
  end.

Definition not_found {A} (entity_id : string) : M A :=
  abort 404 ("Entity with ID '" ++ entity_id ++ "' not found").

Definition list_entities : view (string * string) :=
  λ '(theme_id, entity_type) req e,
    check_route theme_id entity_type ;;;
    items <~ get_collection theme_id entity_type ;;
    ret (Jsonify 200 (JObj (<["theme" := JStr theme_id]>
                           (<["entity_type" := JStr entity_type]>
                           (<["items" := JArr (JObj <$> items)]> ∅))))).

Definition create_entity : view (string * string) :=
  λ '(theme_id, entity_type) req e,
    check_route theme_id entity_type ;;;
    data <~ require_body (body req) ;;
    complete <~ all_in (required_fields e) data ;;
    (if complete : bool then ret tt
     else missing <~ not_in (required_fields e) data ;;
          abort 400 ("Missing required fields: " ++ String.concat ", " missing)) ;;;
    c <~ get_collection theme_id entity_type ;;
    fields <~ unpack data ;;
    let new_entity : record :=
      <["created_at" := JStr (now e)]>
        (fields ∪ {["id" := JStr (pretty (length c + 1)%nat)]}) in
    c <~ get_collection theme_id entity_type ;;
    put_collection theme_id entity_type (c ++ [new_entity]) ;;;
    ret (Jsonify 201 (JObj new_entity)).

Definition get_entity : view (string * string * string) :=
  λ '(theme_id, entity_type, entity_id) req e,
    check_route theme_id entity_type ;;;
    c <~ get_collection theme_id entity_type ;;
    hit <~ find_entity c entity_id 0 ;;
    match hit with
    | Some (_, entity) => ret (Jsonify 200 (JObj entity))
    | None => not_found entity_id
    end.

Definition update_entity : view (string * string * string) :=
  λ '(theme_id, entity_type, entity_id) req e,
    check_route theme_id entity_type ;;;
    data <~ require_body (body req) ;;
    c <~ get_collection theme_id entity_type ;;
    hit <~ find_entity c entity_id 0 ;;
    match hit with
    | Some (i, entity) =>
        fields <~ unpack data ;;
        created <~ getitem entity "created_at" ;;
        let updated_entity : record :=
          <["updated_at" := JStr (now e)]>
            (<["created_at" := created]>
               (<["id" := JStr entity_id]> (fields ∪ entity))) in
        c <~ get_collection theme_id entity_type ;;
        put_collection theme_id entity_type (<[i := updated_entity]> c) ;;;
        ret (Jsonify 200 (JObj updated_entity))
    | None => not_found entity_id
    end.

Definition delete_entity : view (string * string * string) :=
  λ '(theme_id, entity_type, entity_id) req e,
    check_route theme_id entity_type ;;;
    c <~ get_collection theme_id entity_type ;;
    hit <~ find_entity c entity_id 0 ;;
    match hit with
    | Some (i, deleted) =>
        c <~ get_collection theme_id entity_type ;;
        put_collection theme_id entity_type (delete i c) ;;;
        ret (Jsonify 200
               (JObj (<["message" := JStr ("Entity '" ++ entity_id ++
                                           "' deleted successfully")]>
                     (<["deleted" := JObj deleted]> ∅))))
    | None => not_found entity_id
    end.

(** ** The error-test view *)

Definition available_errors : reply :=
  Jsonify 200
    (JObj {["available_errors" :=
            JObj (list_to_map ((λ p, (p.1, JStr (error_description p.2)))
                                 <$> ERROR_TYPES))]}).

Definition test_errors : view unit :=
  λ _ req e,
    match arg_type req with
    | None => ret available_errors
    | Some error_type =>
        if bool_decide (error_type = "")
           || negb (bool_decide (is_Some (assoc error_type ERROR_TYPES)))
        then ret available_errors
        else if bool_decide (error_type = "timeout") then
          py_sleep 3 ;;;
          ret (Jsonify 200 (JObj {["message" := JStr "Response after timeout"]}))
        else if bool_decide (error_type = "rate_limit") then
          abort 429 "Rate limit exceeded. Try again later."
        else if bool_decide (error_type = "server_error") then
          abort 500 "Internal server error occurred"
        else if bool_decide (error_type = "validation_error") then
          abort 422 "Invalid data format or content"
        else raise TypeError   (* the view would return [None] *)
    end.

(** ** Flask: routes, and what reaches the client *)

(** A response as the client sees it.  [HttpError code description] is the
    JSON body [{"code", "name", "description"}] that [handle_exception]
    builds for an [abort], sent with status [code]; [ServerError] is an
    uncaught Python exception, answered with status 500. *)
Inductive response :=
| Json (status : nat) (payload : json)
| HttpError (code : nat) (description : string)
| ServerError (e : exn).

Definition payload_of (r : response) : json :=
  match r with
  | Json _ payload => payload
  | _ => JNull
  end.

Definition status_code (r : response) : nat :=
  match r with
  | Json status _ => status
  | HttpError code _ => code
  | ServerError _ => 500
  end.

Definition handle_exception (code : nat) (description : string) : response :=
  HttpError code description.

Definition respond (m : M reply) (w : world) : response * world :=
  match m w with
  | (Return r, w') => (Json (reply_status r) (reply_body r), w')
  | (Aborted code description, w') => (handle_exception code description, w')
  | (Raised e, w') => (ServerError e, w')
  end.

Inductive route :=
| ListEntities (theme_id entity_type : string)
| CreateEntity (theme_id entity_type : string)
| GetEntity (theme_id entity_type entity_id : string)
| UpdateEntity (theme_id entity_type entity_id : string)
| DeleteEntity (theme_id entity_type entity_id : string)
| ErrorTest.

(** The registered view: [@token_required] over [@simulate_errors] over the
    function, for the entity routes; the bare function for [/error-test]. *)
Definition registered_view (rt : route) : request → env → M reply :=
  match rt with
  | ListEntities t k => token_required (simulate_errors list_entities) (t, k)
  | CreateEntity t k => token_required (simulate_errors create_entity) (t, k)
  | GetEntity t k i => token_required (simulate_errors get_entity) (t, k, i)
  | UpdateEntity t k i => token_required (simulate_errors update_entity) (t, k, i)
  | DeleteEntity t k i => token_required (simulate_errors delete_entity) (t, k, i)
  | ErrorTest => test_errors tt
  end.

Definition is_entity_route (rt : route) : bool :=
  match rt with
  | ErrorTest => false
  | _ => true
  end.

Definition route_theme (rt : route) : string :=
  match rt with
  | ListEntities t _ | CreateEntity t _ | GetEntity t _ _
  | UpdateEntity t _ _ | DeleteEntity t _ _ => t
  | ErrorTest => ""
  end.

Definition route_entity_type (rt : route) : string :=
  match rt with
  | ListEntities _ k | CreateEntity _ k | GetEntity _ k _
  | UpdateEntity _ k _ | DeleteEntity _ k _ => k
  | ErrorTest => ""
  end.

Definition serve (rt : route) (req : request) (e : env) (w : world)
  : response * world :=
  respond (registered_view rt req e) w.

(** ** Seed data *)

Definition mk_record (fields : list (string * json)) : record :=
  list_to_map fields.

(** [data_store[theme][entity] = records] *)
Definition seed (theme entity : string) (records : collection) (ds : store) : store :=
  match ds !! theme with
  | Some by_type => <[theme := <[entity := records]> by_type]> ds
  | None => ds
  end.

Definition init_sample_data (ds : store) : store :=
  seed "smart_city" "public_transport"
    [ mk_record [("id", JStr "1"); ("name", JStr "Metro Line 1");
                 ("description", JStr "North-South metro connection");
                 ("status", JStr "operational"); ("capacity", JInt 1200);
                 ("created_at", JStr "2023-04-15 13:45:00")] ]
  (seed "smart_city" "traffic_sensors"
    [ mk_record [("id", JStr "1"); ("name", JStr "Downtown Junction A");
                 ("description", JStr "Main intersection traffic monitor");
                 ("status", JStr "active");
                 ("created_at", JStr "2023-04-12 08:30:00")] ]
  (seed "fantasy_rpg" "quests"
    [ mk_record [("id", JStr "1"); ("name", JStr "The Lost Artifact");
                 ("description", JStr "Recover an ancient artifact from the ruins");
                 ("difficulty", JStr "Medium"); ("reward", JStr "500 gold");
                 ("created_at", JStr "2023-03-10 16:20:00")] ]
  (seed "fantasy_rpg" "characters"
    [ mk_record [("id", JStr "1"); ("name", JStr "Elindra");
                 ("description", JStr "Elven ranger from the western forests");
                 ("class", JStr "Ranger"); ("level", JInt 5);
                 ("created_at", JStr "2023-03-05 11:15:00")] ]
  (seed "space_exploration" "astronauts"
    [ mk_record [("id", JStr "1"); ("name", JStr "Dr. Sarah Chen");
                 ("description", JStr "Astrophysicist and mission specialist");
                 ("specialty", JStr "Planetary geology");
                 ("created_at", JStr "2023-01-10 09:20:00")] ]
  (seed "space_exploration" "missions"
    [ mk_record [("id", JStr "1"); ("name", JStr "Mars Rover Mission");
                 ("description", JStr "Explore the surface of Mars");
                 ("status", JStr "in-progress");
                 ("created_at", JStr "2023-01-15 10:30:00")];
      mk_record [("id", JStr "2"); ("name", JStr "Jupiter Orbital");
                 ("description", JStr "Study Jupiter's atmosphere");
                 ("status", JStr "planned");
                 ("created_at", JStr "2023-02-20 14:45:00")] ]
  ds))))).

(** ** Reachable worlds *)

(** The worlds the server can be in: it starts from the empty collections or
    from the seeded ones, and every served request leads to the next. *)
Inductive reachable : world → Prop :=
| reach_initial : reachable (World initial_store [])
| reach_seeded : reachable (World (init_sample_data initial_store) [])
| reach_serve w rt req e :
    reachable w → reachable (serve rt req e w).2.

(** The values under [key] in a collection, position by position ([None]
    where a record lacks the key). *)
Definition column (key : string) (c : collection) : list (option json) :=
  (λ r : record, r !! key) <$> c.

(** [payload[key]] when the payload is an object that has the key. *)
Definition field_of (payload : json) (key : string) : option json :=
  match payload with
  | JObj m => m !! key
  | _ => None
  end.

(** The collection of a (theme, entity type) in a world, if any. *)
Definition collection_of (w : world) (theme_id entity_type : string)
  : option collection :=
  by_type ← data_store w !! theme_id; by_type !! entity_type.

(** Serving a sequence of requests, one after the other. *)
Definition serve_all (rs : list (route * request * env)) (w : world) : world :=
  foldl (λ w r, (serve r.1.1 r.1.2 r.2 w).2) w rs.

(** What [@token_required] wraps: the view under [@simulate_errors]. *)
Definition guarded_view (rt : route) : request → env → M reply :=
  match rt with
  | ListEntities t k => simulate_errors list_entities (t, k)
  | CreateEntity t k => simulate_errors create_entity (t, k)
  | GetEntity t k i => simulate_errors get_entity (t, k, i)
  | UpdateEntity t k i => simulate_errors update_entity (t, k, i)
  | DeleteEntity t k i => simulate_errors delete_entity (t, k, i)
  | ErrorTest => test_errors tt
  end.

(** The route names a declared theme and one of its entity types. *)
Definition route_valid (rt : route) : bool :=
  match assoc (route_theme rt) THEMES with
  | Some t => has_entity t (route_entity_type rt)
  | None => false
  end.

(** ** Frames *)

(** Everything [simulate_errors] does before it calls the view. *)
Definition fault_gate (e : env) : M unit :=
  if (draw_gate e <? error_rate (cfg e))%float then
    error_type <~ random_choices (fst <$> ERROR_TYPES)
                                 ((λ p, chance p.2) <$> ERROR_TYPES)
                                 (draw_choice e) ;;
    if bool_decide (error_type = "timeout") then
      py_sleep (random_uniform 1 (timeout_seconds (cfg e)) (draw_uniform e))
    else if bool_decide (error_type = "rate_limit") then
      abort 429 "Rate limit exceeded. Try again later."
    else if bool_decide (error_type = "server_error") then
      abort 500 "Internal server error occurred"
    else if bool_decide (error_type = "validation_error") then
      abort 422 "Invalid data format or content"
    else ret tt
  else ret tt.

(** [keeps_store m]: running [m] never changes [data_store]. *)
Definition keeps_store {A} (m : M A) : Prop :=
  ∀ w, data_store (m w).2 = data_store w.

(** [atomic m ok]: [m] either returns a value satisfying [ok], or ends in an
    abort or an exception with [data_store] as it found it. *)
Definition atomic {A} (m : M A) (ok : A → Prop) : Prop :=
  ∀ w, match (m w).1 with
       | Return a => ok a
       | _ => data_store (m w).2 = data_store w
       end.

(** The statuses of a view that returns. *)
Definition success (r : reply) : Prop :=
  reply_status r = 200 ∨ reply_status r = 201.

(** ** Sample requests *)

Definition anonymous : request := Request None None None.

Definition with_token (t : string) (b : option json) : request :=
  Request (Some t) b None.

Definition authorized (b : option json) : request := with_token API_TOKEN b.

(** Default configuration, a first draw of 0.5 (no fault), clock [t]. *)
Definition calm (t : string) : env :=
  Env (Config 0.2 2) 0.5 0 0 t true.

(** Default configuration, a first draw of 0.1 (a fault) and a second
    draw [u] choosing its kind. *)
Definition stormy (u : float) : env :=
  Env (Config 0.2 2) 0.1 u 0.5 "2024-01-01 00:00:00" true.

Definition body_xy : json :=
  JObj (mk_record [("name", JStr "X"); ("description", JStr "Y")]).

Definition body_xy_id99 : json :=
  JObj (mk_record [("id", JStr "99"); ("name", JStr "X"); ("description", JStr "Y")]).

Definition body_rename : json :=
  JObj (mk_record [("name", JStr "Z"); ("id", JStr "7");
                   ("created_at", JStr "never"); ("updated_at", JStr "never")]).

Definition fresh_world : world := World initial_store [].

Definition create_item (b : json) (t : string) : route * request * env :=
  (CreateEntity "fantasy_rpg" "items", authorized (Some b), calm t).

Definition delete_item (entity_id t : string) : route * request * env :=
  (DeleteEntity "fantasy_rpg" "items" entity_id, authorized None, calm t).

(** Two creates, the delete of the first record, one more create. *)
Definition create_delete_create : list (route * request * env) :=
  [ create_item body_xy "2024-01-01 10:00:00";
    create_item body_xy "2024-01-01 10:00:01";
    delete_item "1" "2024-01-01 10:00:02";
    create_item body_xy "2024-01-01 10:00:03" ].

(** The world after one create on the empty collection. *)
Definition one_item_world : world :=
  serve_all [create_item body_xy "2024-01-01 10:00:00"] fresh_world.

(** ** The theme views *)

(** [GET /themes] *)
Definition get_themes : view unit :=
  λ _ req e,
    ret (Jsonify 200
           (JObj {["themes" :=
                   JArr ((λ p : string * theme_info,
                            JObj (<["id" := JStr p.1]>
                                 (<["name" := JStr (theme_name p.2)]>
                                 (<["description" := JStr (theme_description p.2)]> ∅))))
                           <$> THEMES)]})).

(** The comprehension
    [[{"type": entity, "count": len(data_store[theme_id][entity])} for entity in ...]]. *)
Fixpoint entity_counts (theme_id : string) (entities : list string) : M (list json) :=
  match entities with
  | [] => ret []
  | entity :: rest =>
      c <~ get_collection theme_id entity ;;
      counts <~ entity_counts theme_id rest ;;
      ret (JObj (<["type" := JStr entity]>
                (<["count" := JInt (Z.of_nat (length c))]> ∅)) :: counts)
  end.

(** [GET /themes/<theme_id>]: the dict display
    [{"id": theme_id, **THEMES[theme_id], "entities": [...]}], whose last key
    replaces the list of names that [**THEMES[theme_id]] brought. *)
Definition get_theme : view string :=
  λ theme_id req e,
    match assoc theme_id THEMES with
    | None => abort 404 ("Theme '" ++ theme_id ++ "' not found")
    | Some t =>
        counts <~ entity_counts theme_id (theme_entities t) ;;
        ret (Jsonify 200
               (JObj (<["entities" := JArr counts]>
                     (<["entities" := JArr (JStr <$> theme_entities t)]>
                     (<["description" := JStr (theme_description t)]>
                     (<["name" := JStr (theme_name t)]>
                     (<["id" := JStr theme_id]> ∅)))))))
    end.

(** ** Shapes of stores and of store changes *)

(** The store holds a collection for a (theme, entity type) exactly when the
    theme declares the entity type. *)
Definition store_shape (w : world) : Prop :=
  ∀ theme_id entity_type,
    is_Some (collection_of w theme_id entity_type) ↔
    route_valid (ListEntities theme_id entity_type) = true.

Definition reserved_fields : list string :=
  ["id"; "name"; "description"; "created_at"].

Definition record_complete (r : record) : Prop :=
  ∀ key, key ∈ reserved_fields → is_Some (r !! key).

Definition records_complete (w : world) : Prop :=
  ∀ theme_id entity_type c r,
    collection_of w theme_id entity_type = Some c → r ∈ c → record_complete r.

(** The record a create builds from the body's [fields] for a collection of
    [n] records at time [t]. *)
Definition created_record (fields : record) (n : nat) (t : string) : record :=
  <["created_at" := JStr t]> (fields ∪ {["id" := JStr (pretty (n + 1)%nat)]}).

(** The record an update builds from the record [old] and the body's
    [fields] at time [t], for the id of the route. *)
Definition updated_record (old fields : record) (entity_id : string)
    (created : json) (t : string) : record :=
  <["updated_at" := JStr t]>
    (<["created_at" := created]> (<["id" := JStr entity_id]> (fields ∪ old))).

(** The three ways a view rewrites a collection. *)
Inductive collection_step (t : string) : collection → collection → Prop :=
| step_append c (fields : record) :
    is_Some (fields !! "name") → is_Some (fields !! "description") →
    collection_step t c (c ++ [created_record fields (length c) t])
| step_replace c i (old fields : record) entity_id created :
    c !! i = Some old →
    old !! "id" = Some (JStr entity_id) →
    old !! "created_at" = Some created →
    collection_step t c (<[i := updated_record old fields entity_id created t]> c)
| step_remove c i (r : record) :
    c !! i = Some r →
    collection_step t c (delete i c).

(** What one request does to the store: nothing, or one rewrite of one
    collection. *)
Inductive store_step (t : string) (w w' : world) : Prop :=
| store_same :
    data_store w' = data_store w → store_step t w w'
| store_write theme_id entity_type c c' :
    collection_of w theme_id entity_type = Some c →
    collection_step t c c' →
    collection_of w' theme_id entity_type = Some c' →
    (∀ t' k', (t', k') ≠ (theme_id, entity_type) →
              collection_of w' t' k' = collection_of w t' k') →
    store_step t w w'.

(** The ids "1", ..., "n" in this order. *)
Definition counted_ids (n : nat) : list (option json) :=
  (λ i : nat, Some (JStr (pretty (i + 1)%nat))) <$> seq 0 n.

(** Both invariants of the reachable worlds. *)
Definition well_formed (w : world) : Prop :=
  store_shape w ∧ records_complete w.



(** The mapping of a payload that is an object. *)
Definition object_of (payload : json) : record :=
  match payload with
  | JObj m => m
  | _ => ∅
  end.

(** ** The test client of [test_api.py] *)

Definition BASE_URL : string := "http://localhost:5000".

(** [HEADERS], the default request headers, token included. *)
Definition HEADERS : gmap string string :=
  <["X-API-Token" := "student_test_token"]>
    (<["Content-Type" := "application/json"]> ∅).

(** What the client reads of a [requests.Response]; [response_json] is
    [None] when [response.json()] raises [JSONDecodeError]. *)
Record http_response := HttpResponse {
  response_status : nat;
  response_reason : string;
  response_text : string;
  response_json : option json
}.

(** The keyword arguments of one [requests.request] call. *)
Record call := Call {
  call_method : string;
  call_url : string;
  call_headers : gmap string string;
  call_json : option json;
  call_timeout : nat
}.

(** What the [attempt]-th call of [requests.request] does: it returns a
    response or raises a [RequestException] with the given text. *)
Inductive net_outcome :=
| Responds (r : http_response)
| Fails (e : string).

Inductive log_level := DEBUG | INFO | WARNING | ERROR.

(** The log lines of the helpers, by the values they interpolate. *)
Inductive log_line :=
| LineRequest (method url : string)
| LineHeaders (headers : gmap string string)
| LineData (data : json)
| LineRetrying (retry_delay : Q) (attempt_plus_one : nat) (retry : Z)
| LineGaveUp (retry : Z) (e : string)
| LineCompleted
| LineResponse (status : nat) (reason : string)
| LineContent (content : json)
| LineNotJson
| LineText (text : string)
| LineUnexpected (expected got : nat).

Inductive event :=
| Log (level : log_level) (line : log_line)
| Requested (c : call)
| Slept (d : Q).

Inductive client_exn :=
| RequestException (e : string)
| ClientAttributeError
| ClientValueError.

Inductive client_result :=
| Returned (r : http_response) (content : option json)
| Raises (e : client_exn).

(** [log_request(method, url, headers, data)] *)
Definition log_request (method url : string) (headers : gmap string string)
    (data : option json) : list event :=
  ([Log INFO (LineRequest method url)]
   ++ (if bool_decide (headers = ∅) then [] else [Log DEBUG (LineHeaders headers)])
   ++ match data with
      | Some d => if truthy d then [Log DEBUG (LineData d)] else []
      | None => []
      end)%list.

(** [log_response(response)], for a response that is not [None]. *)
Definition log_response (r : http_response) : list event * option json :=
  (Log INFO (LineResponse (response_status r) (response_reason r))
   :: match response_json r with
      | Some content => [Log DEBUG (LineContent content)]
      | None => [Log WARNING LineNotJson; Log DEBUG (LineText (response_text r))]
      end,
   response_json r).

Inductive loop_end :=
| Broke (r : http_response)
| Exhausted
| LoopRaised (e : client_exn).

(** The loop [for attempt in range(retry + 1)], from [attempt] on, with
    [remaining] iterations left. *)
Fixpoint request_loop (net : nat → net_outcome) (c : call) (retry : Z)
    (retry_delay : Q) (remaining attempt : nat) : list event * loop_end :=
  match remaining with
  | O => ([], Exhausted)
  | S remaining' =>
      match net attempt with
      | Responds r => ([Requested c], Broke r)
      | Fails e =>
          if (Z.of_nat attempt <? retry)%Z then
            if Qle_bool 0 retry_delay then
              let '(trace, result) :=
                request_loop net c retry retry_delay remaining' (S attempt) in
              (Requested c
               :: Log WARNING (LineRetrying retry_delay (attempt + 1) retry)
               :: Slept retry_delay :: trace, result)
            else
              ([Requested c;
                Log WARNING (LineRetrying retry_delay (attempt + 1) retry)],
               LoopRaised ClientValueError)
          else
            ([Requested c; Log ERROR (LineGaveUp retry e)],
             LoopRaised (RequestException e))
      end
  end.

(** [make_request(method, endpoint, expected_status, headers, json_data,
    retry, retry_delay)], given what the network does at each attempt. *)
Definition make_request (net : nat → net_outcome) (method endpoint : string)
    (expected_status : option nat) (headers : option (gmap string string))
    (json_data : option json) (retry : Z) (retry_delay : Q)
  : list event * client_result :=
  let url := BASE_URL ++ endpoint in
  let request_headers :=
    match headers with
    | Some h => if bool_decide (h = ∅) then HEADERS else h
    | None => HEADERS
    end in
  let c := Call method url request_headers json_data 10 in
  let '(trace, result) :=
    request_loop net c retry retry_delay (Z.to_nat (retry + 1)) 0 in
  let before := (log_request method url request_headers json_data ++ trace)%list in
  match result with
  | LoopRaised e => (before, Raises e)
  | Exhausted =>
      ((before ++ [Log INFO LineCompleted])%list, Raises ClientAttributeError)
  | Broke r =>
      let '(lines, content) := log_response r in
      ((before ++ [Log INFO LineCompleted] ++ lines
        ++ match expected_status with
           | Some expected =>
               if negb (expected =? 0)%nat
                  && negb (response_status r =? expected)%nat
               then [Log ERROR (LineUnexpected expected (response_status r))]
               else []
           | None => []
           end)%list,
       Returned r content)
  end.

(** The calls of [requests.request] and the sleeps of a trace, in order. *)
Definition calls_of (trace : list event) : list call :=
  omap (λ ev, match ev with Requested c => Some c | _ => None end) trace.

Definition sleeps_of (trace : list event) : list Q :=
  omap (λ ev, match ev with Slept d => Some d | _ => None end) trace.

(** A network that fails [k] times and then answers [r]. *)
Definition flaky (k : nat) (r : http_response) : nat → net_outcome :=
  λ attempt, if (attempt <? k)%nat then Fails "connection refused" else Responds r.

Definition teapot : http_response :=
  HttpResponse 500 "INTERNAL SERVER ERROR" "oops" None.

(** * Properties *)

(** ** The monad and the decorators *)

Lemma respond_abort code description w :
  respond (abort code description) w = (HttpError code description, w).
Proof. reflexivity. Qed.

Section Decorators.
Context {Args : Type} (f : view Args).

Lemma token_required_missing args req e :
  token req = None ∨ token req = Some "" →
  token_required f args req e = abort 401 "API token is missing".
Proof. unfold token_required. intros [-> | ->]; reflexivity. Qed.

Lemma token_required_invalid args req e t :
  token req = Some t → t ≠ "" → t ≠ API_TOKEN →
  token_required f args req e = abort 403 "Invalid API token".
Proof.
  unfold token_required. intros -> Hne Hbad.
  rewrite bool_decide_eq_false_2 by done.
  by rewrite bool_decide_eq_true_2.
Qed.

Lemma token_required_valid args req e :
  token req = Some API_TOKEN →
  token_required f args req e = f args req e.
Proof. unfold token_required. intros ->. reflexivity. Qed.

Lemma simulate_errors_pass args req e w :
  (draw_gate e <? error_rate (cfg e))%float = false →
  simulate_errors f args req e w = f args req e w.
Proof. intros Hle. unfold simulate_errors. rewrite Hle. reflexivity. Qed.
End Decorators.

(** ** Comparisons of floats *)


Lemma SFcompare_trans x y z :
  SFcompare x y = Some Lt → SFcompare y z = Some Lt → SFcompare x z = Some Lt.
Proof.
  destruct x as [sx|sx| |sx mx ex], y as [sy|sy| |sy my ey],
           z as [sz|sz| |sz mz ez]; simpl;
    repeat match goal with s : bool |- _ => destruct s end; simpl; try done;
    change (PosDef.Pos.compare_cont Eq ?a ?b) with (Pos.compare a b);
    intros H1 H2; f_equal;
    destruct (Z.compare_spec ex ey), (Z.compare_spec ey ez), (Z.compare_spec ex ez);
    simpl in *; try done; try lia; subst;
    destruct (Pos.compare_spec mx my), (Pos.compare_spec my mz),
             (Pos.compare_spec mx mz); simpl in *; try done; try lia.
Qed.

(** [x < y] and [y < z] give [x < z], also on floats. *)
Lemma float_ltb_trans (x y z : float) :
  (x <? y)%float = true → (y <? z)%float = true → (x <? z)%float = true.
Proof.
  rewrite !ltb_spec. unfold SFltb. intros H1 H2.
  rewrite (SFcompare_trans (Prim2SF x) (Prim2SF y) (Prim2SF z)); [done| |].
  - by destruct (SFcompare (Prim2SF x) (Prim2SF y)) as [[]|].
  - by destruct (SFcompare (Prim2SF y) (Prim2SF z)) as [[]|].
Qed.


Lemma float_ltb_below (x a b : float) :
  (a <? b)%float = true → (x <? a)%float = true → (x <? b)%float = true.
Proof. intros Hab Hxa. by apply (float_ltb_trans x a b). Qed.

Lemma float_ltb_above (x a b : float) :
  (a <? b)%float = true → (x <? b)%float = false → (x <? a)%float = false.
Proof.
  intros Hab Hxb. destruct (x <? a)%float eqn:Hxa; [|done].
  by rewrite (float_ltb_trans x a b) in Hxb.
Qed.

(** ** The fault injector as a function of its draws *)

(** The binary search of [random.choices] over the running sums of the four
    weights, spelled out: the scaled draw [u * total] is compared with the
    second running sum, then with the first or with the third. *)
Lemma random_choices_ERROR_TYPES u w :
  random_choices (fst <$> ERROR_TYPES) ((λ p, chance p.2) <$> ERROR_TYPES) u w =
  (Return (let x := (u * (0.1 + 0.15 + 0.1 + 0.2 + 0))%float in
           if (x <? 0.1 + 0.15)%float
           then if (x <? 0.1)%float then "timeout" else "rate_limit"
           else if (x <? 0.1 + 0.15 + 0.1)%float then "server_error"
                else "validation_error"), w).
Proof.
  unfold random_choices.
  cbn [ERROR_TYPES fmap list_fmap fst snd chance accumulate accumulate_from
       length Nat.eqb negb last].
  replace (0.1 + 0.15 + 0.1 + 0.2 + 0 <=? 0)%float with false by reflexivity.
  replace (is_finite (0.1 + 0.15 + 0.1 + 0.2 + 0)) with true by reflexivity.
  unfold bisect. change (4 - 1 - 0)%nat with 3%nat. change (4 - 1)%nat with 3%nat.
  cbn zeta. set (x := (u * _)%float).
  cbn [bisect_loop Nat.ltb Nat.leb negb].
  change ((0 + 3) / 2)%nat with 1%nat. cbn [nth].
  destruct (x <? 0.1 + 0.15)%float.
  - cbn [bisect_loop Nat.ltb Nat.leb]. change ((0 + 1) / 2)%nat with 0%nat. cbn [nth].
    by destruct (x <? 0.1)%float.
  - cbn [bisect_loop Nat.ltb Nat.leb]. change ((2 + 3) / 2)%nat with 2%nat. cbn [nth].
    by destruct (x <? 0.1 + 0.15 + 0.1)%float.
Qed.

(** The four outcomes of the fault injector once a fault is drawn. *)
Lemma fault_gate_drawn e w :
  (draw_gate e <? error_rate (cfg e))%float = true →
  let x := (draw_choice e * (0.1 + 0.15 + 0.1 + 0.2 + 0))%float in
  fault_gate e w =
  if (x <? 0.1 + 0.15)%float then
    if (x <? 0.1)%float then
      py_sleep (random_uniform 1 (timeout_seconds (cfg e)) (draw_uniform e)) w
    else abort 429 "Rate limit exceeded. Try again later." w
  else if (x <? 0.1 + 0.15 + 0.1)%float then
    abort 500 "Internal server error occurred" w
  else abort 422 "Invalid data format or content" w.
Proof.
  intros Hr x. unfold fault_gate. rewrite Hr. unfold bind.
  rewrite random_choices_ERROR_TYPES. cbn zeta. fold x.
  by destruct (x <? 0.1 + 0.15)%float, (x <? 0.1)%float,
              (x <? 0.1 + 0.15 + 0.1)%float.
Qed.

(** The same, by the interval of the scaled draw. *)
Lemma fault_gate_by_draws e w :
  (draw_gate e <? error_rate (cfg e))%float = true →
  let x := (draw_choice e * (0.1 + 0.15 + 0.1 + 0.2 + 0))%float in
  ((x <? 0.1)%float = true →
     fault_gate e w =
     py_sleep (random_uniform 1 (timeout_seconds (cfg e)) (draw_uniform e)) w) ∧
  ((x <? 0.1)%float = false → (x <? 0.1 + 0.15)%float = true →
     fault_gate e w = abort 429 "Rate limit exceeded. Try again later." w) ∧
  ((x <? 0.1 + 0.15)%float = false → (x <? 0.1 + 0.15 + 0.1)%float = true →
     fault_gate e w = abort 500 "Internal server error occurred" w) ∧
  ((x <? 0.1 + 0.15 + 0.1)%float = false →
     fault_gate e w = abort 422 "Invalid data format or content" w).
Proof.
  intros Hr x. rewrite (fault_gate_drawn e w Hr). fold x. repeat split.
  - intros H. by rewrite (float_ltb_below x 0.1 (0.1 + 0.15)), H.
  - intros H1 H2. by rewrite H2, H1.
  - intros H1 H2. by rewrite H1, H2.
  - intros H. by rewrite (float_ltb_above x (0.1 + 0.15) (0.1 + 0.15 + 0.1)), H.
Qed.

Lemma simulate_errors_gate {Args} (f : view Args) args req e :
  simulate_errors f args req e = (fault_gate e ;;; f args req e).
Proof. reflexivity. Qed.




(** ** The auth gate *)

Lemma serve_entity_route rt req e w :
  is_entity_route rt = true →
  (token req = None ∨ token req = Some "" →
     serve rt req e w = (HttpError 401 "API token is missing", w)) ∧
  (∀ t, token req = Some t → t ≠ "" → t ≠ API_TOKEN →
     serve rt req e w = (HttpError 403 "Invalid API token", w)) ∧
  (token req = Some API_TOKEN →
     serve rt req e w = respond (guarded_view rt req e) w).
Proof.
  intros Hrt. unfold serve. repeat split.
  - intros H. destruct rt; try done; simpl;
      by rewrite token_required_missing.
  - intros t H1 H2 H3. destruct rt; try done; simpl;
      by rewrite (token_required_invalid _ _ _ _ t).
  - intros H. destruct rt; try done; simpl;
      by rewrite token_required_valid.
Qed.

(** The claim of C6 fails for a header that is present but empty: the
    token [""] differs from the secret and is answered 401, not 403. *)
Lemma empty_token_is_answered_401 :
  ¬ (∀ rt req e w t,
       is_entity_route rt = true → route_valid rt = true →
       token req = Some t → t ≠ API_TOKEN →
       status_code (serve rt req e w).1 = 403).
Proof.
  intros H.
  specialize (H (ListEntities "fantasy_rpg" "items") (with_token "" None)
                (calm "") fresh_world "" eq_refl eq_refl eq_refl).
  by specialize (H ltac:(done)).
Qed.

(** C6, amended.  On every entity route: a request without the
    [X-API-Token] header, or with an empty one, is answered 401; a
    non-empty token other than the secret is answered 403; with the secret
    the gate does not answer at all, the response is that of the view it
    wraps. *)
Theorem auth_gate_verdicts rt req e w :
  is_entity_route rt = true →
  match token req with
  | None => serve rt req e w = (HttpError 401 "API token is missing", w)
  | Some t =>
      if bool_decide (t = "") then
        serve rt req e w = (HttpError 401 "API token is missing", w)
      else if bool_decide (t = API_TOKEN) then
        serve rt req e w = respond (guarded_view rt req e) w
      else
        status_code (serve rt req e w).1 = 403 ∧
        serve rt req e w = (HttpError 403 "Invalid API token", w)
  end.
Proof.
  intros Hrt. destruct (serve_entity_route rt req e w Hrt) as (H1 & H2 & H3).
  destruct (token req) as [t|] eqn:Ht; [|by apply H1; left].
  repeat case_bool_decide; subst.
  - apply H1. by right.
  - by apply H3.
  - rewrite (H2 t) by done. done.
Qed.

Lemma auth_gate_verdicts_witness :
  serve (GetEntity "fantasy_rpg" "items" "1") (with_token "guess" None)
        (calm "") fresh_world
  = (HttpError 403 "Invalid API token", fresh_world).
Proof.
  apply (auth_gate_verdicts (GetEntity "fantasy_rpg" "items" "1")
           (with_token "guess" None) (calm "") fresh_world).
  reflexivity.
Defined.

(** ** Order of the checks *)

(** The claim of C1 fails: without a token, an unknown theme is answered
    401, not 404. *)
Lemma unknown_theme_without_token_is_401 :
  ¬ (∀ rt req e w,
       is_entity_route rt = true → route_valid rt = false →
       token req ≠ Some API_TOKEN →
       status_code (serve rt req e w).1 = 404).
Proof.
  intros H.
  specialize (H (ListEntities "atlantis" "items") anonymous (calm "") fresh_world
                eq_refl eq_refl).
  by specialize (H ltac:(done)).
Qed.

(** C1, amended.  On every entity route the auth gate answers first,
    whatever the theme and entity type: 401 without a token (or with an
    empty one), 403 with a wrong one.  Once the token is accepted the fault
    injector comes next, still before the theme and entity type are looked
    at: on a route whose theme is unknown, or whose entity type the theme
    does not declare, an injected rate_limit, server_error or
    validation_error is answered 429, 500 or 422, not 404, and an injected
    timeout is answered 404 only after its [time.sleep].  The route is
    validated last: when the fault injector lets the request through, or
    has only delayed it, the answer is 404 and the store is untouched. *)
Theorem auth_precedes_route_validation rt req e w :
  is_entity_route rt = true →
  route_valid rt = false →
  let message :=
    match assoc (route_theme rt) THEMES with
    | None => "Theme '" ++ route_theme rt ++ "' not found"
    | Some _ => "Entity type '" ++ route_entity_type rt ++
                "' not found in theme '" ++ route_theme rt ++ "'"
    end in
  let r := draw_gate e in
  let rate := error_rate (cfg e) in
  let x := (draw_choice e * (0.1 + 0.15 + 0.1 + 0.2 + 0))%float in
  let d := random_uniform 1 (timeout_seconds (cfg e)) (draw_uniform e) in
  (token req = None ∨ token req = Some "" →
     serve rt req e w = (HttpError 401 "API token is missing", w)) ∧
  (∀ t, token req = Some t → t ≠ "" → t ≠ API_TOKEN →
     serve rt req e w = (HttpError 403 "Invalid API token", w)) ∧
  (token req = Some API_TOKEN →
     ((r <? rate)%float = false →
        serve rt req e w = (HttpError 404 message, w)) ∧
     ((r <? rate)%float = true →
        ((x <? 0.1)%float = true →
           serve rt req e w = respond (py_sleep d ;;; abort 404 message) w) ∧
        ((x <? 0.1)%float = false → (x <? 0.1 + 0.15)%float = true →
           serve rt req e w =
           (HttpError 429 "Rate limit exceeded. Try again later.", w)) ∧
        ((x <? 0.1 + 0.15)%float = false → (x <? 0.1 + 0.15 + 0.1)%float = true →
           serve rt req e w =
           (HttpError 500 "Internal server error occurred", w)) ∧
        ((x <? 0.1 + 0.15 + 0.1)%float = false →
           serve rt req e w =
           (HttpError 422 "Invalid data format or content", w)))).
Proof.
  intros Hrt Hbad message r rate x d.
  destruct (serve_entity_route rt req e w Hrt) as (H1 & H2 & H3).
  split; [done|]. split; [done|].
  intros Htok. rewrite H3 by done.
  assert (respond (guarded_view rt req e) w =
          match fault_gate e w with
          | (Return _, w1) => (HttpError 404 message, w1)
          | (Aborted code description, w1) => (HttpError code description, w1)
          | (Raised exception, w1) => (ServerError exception, w1)
          end) as Hgate.
  { unfold route_valid in Hbad. unfold respond. subst message.
    destruct rt; try done;
      cbn [route_theme route_entity_type guarded_view] in *;
      rewrite simulate_errors_gate; unfold bind;
      (destruct (fault_gate e w) as [[[]|code description|exception] w1];
       [|reflexivity|reflexivity]);
      unfold list_entities, create_entity, get_entity, update_entity,
        delete_entity, bind, check_route;
      (destruct (assoc _ THEMES) as [t|]; [rewrite Hbad|]; reflexivity). }
  rewrite Hgate. clear Hgate. split.
  - intros Hr. unfold fault_gate. fold r rate. by rewrite Hr.
  - intros Hr.
    destruct (fault_gate_by_draws e w Hr) as (F1 & F2 & F3 & F4).
    repeat split.
    + intros H. rewrite F1 by done. fold d. unfold respond, bind.
      by destruct (py_sleep d w) as [[[]|code description|exception] w1].
    + intros Ha Hb. by rewrite F2.
    + intros Ha Hb. by rewrite F3.
    + intros Ha. by rewrite F4.
Qed.

Lemma auth_precedes_route_validation_witness :
  serve (ListEntities "atlantis" "items") anonymous (calm "") fresh_world
  = (HttpError 401 "API token is missing", fresh_world)
  ∧ serve (ListEntities "atlantis" "items") (authorized None) (calm "") fresh_world
    = (HttpError 404 "Theme 'atlantis' not found", fresh_world)
  ∧ serve (ListEntities "atlantis" "items") (authorized None) (stormy 0.3)
      fresh_world
    = (HttpError 429 "Rate limit exceeded. Try again later.", fresh_world)
  ∧ serve (ListEntities "atlantis" "items") (authorized None) (stormy 0.1)
      fresh_world
    = (HttpError 404 "Theme 'atlantis' not found",
       World (data_store fresh_world) (slept fresh_world ++ [1.5%float])).
Proof.
  split.
  { apply (auth_precedes_route_validation (ListEntities "atlantis" "items")
             anonymous (calm "") fresh_world); [reflexivity | reflexivity |].
    left. reflexivity. }
  split.
  { apply (auth_precedes_route_validation (ListEntities "atlantis" "items")
             (authorized None) (calm "") fresh_world); reflexivity. }
  split.
  { apply (auth_precedes_route_validation (ListEntities "atlantis" "items")
             (authorized None) (stormy 0.3) fresh_world); reflexivity. }
  apply (auth_precedes_route_validation (ListEntities "atlantis" "items")
           (authorized None) (stormy 0.1) fresh_world); reflexivity.
Defined.

(** ** The error-test view *)

Lemma known_error_type t :
  bool_decide (is_Some (assoc t ERROR_TYPES)) = true ↔
  t ∈ ["timeout"; "rate_limit"; "server_error"; "validation_error"].
Proof.
  rewrite bool_decide_eq_true, !elem_of_cons, elem_of_nil.
  unfold ERROR_TYPES. cbn [assoc].
  repeat case_bool_decide; subst; split; intros Hin; eauto 6.
  - by destruct Hin as [? [=]].
  - destruct Hin as [?|[?|[?|[?|[]]]]]; congruence.
Qed.

(** C8.  The error-test view depends on the [type] parameter only, never on
    the configuration or on a random draw: [rate_limit] aborts with 429,
    [server_error] with 500, [validation_error] with 422; [timeout] sleeps
    3 seconds and then answers 200; an absent, empty or unknown [type]
    answers 200 with the catalog of the four kinds and their descriptions. *)
Theorem error_test_is_deterministic req e w :
  let catalog : gmap string json :=
    <["timeout" := JStr "Server timeout simulation"]>
    (<["rate_limit" := JStr "Rate limiting simulation"]>
    (<["server_error" := JStr "Internal server error simulation"]>
    (<["validation_error" := JStr "Data validation error simulation"]> ∅))) in
  (∀ e', serve ErrorTest req e' w = serve ErrorTest req e w) ∧
  match arg_type req with
  | None =>
      serve ErrorTest req e w
      = (Json 200 (JObj {["available_errors" := JObj catalog]}), w)
  | Some t =>
      if bool_decide (t = "rate_limit") then
        serve ErrorTest req e w
        = (HttpError 429 "Rate limit exceeded. Try again later.", w)
      else if bool_decide (t = "server_error") then
        serve ErrorTest req e w
        = (HttpError 500 "Internal server error occurred", w)
      else if bool_decide (t = "validation_error") then
        serve ErrorTest req e w
        = (HttpError 422 "Invalid data format or content", w)
      else if bool_decide (t = "timeout") then
        serve ErrorTest req e w
        = (Json 200 (JObj {["message" := JStr "Response after timeout"]}),
           World (data_store w) (slept w ++ [3%float]))
      else
        serve ErrorTest req e w
        = (Json 200 (JObj {["available_errors" := JObj catalog]}), w)
  end.
Proof.
  intros catalog. split; [reflexivity|].
  destruct (arg_type req) as [t|] eqn:Ht; [|unfold serve, registered_view, test_errors; by rewrite Ht].
  destruct (decide (t = "rate_limit")) as [->|N1];
    [unfold serve, registered_view, test_errors; by rewrite Ht|].
  destruct (decide (t = "server_error")) as [->|N2];
    [unfold serve, registered_view, test_errors; by rewrite Ht|].
  destruct (decide (t = "validation_error")) as [->|N3];
    [unfold serve, registered_view, test_errors; by rewrite Ht|].
  destruct (decide (t = "timeout")) as [->|N4];
    [unfold serve, registered_view, test_errors; by rewrite Ht|].
  rewrite !bool_decide_eq_false_2 by done.
  unfold serve, registered_view, test_errors. rewrite Ht.
  destruct (bool_decide (t = "")) eqn:E0; [reflexivity|].
  destruct (bool_decide (is_Some (assoc t ERROR_TYPES))) eqn:E1; [|reflexivity].
  apply known_error_type in E1.
  rewrite !elem_of_cons, elem_of_nil in E1.
  destruct E1 as [?|[?|[?|[?|[]]]]]; congruence.
Qed.

(** ** Reading the store *)

Lemma eq_str_true v s : eq_str v s = true ↔ v = JStr s.
Proof.
  destruct v; simpl; try (split; [discriminate | congruence]).
  rewrite bool_decide_eq_true. split; congruence.
Qed.

Lemma check_route_cases theme_id entity_type w :
  (route_valid (ListEntities theme_id entity_type) = true ∧
   check_route theme_id entity_type w = (Return tt, w)) ∨
  (route_valid (ListEntities theme_id entity_type) = false ∧
   ∃ d, check_route theme_id entity_type w = (Aborted 404 d, w)).
Proof.
  unfold route_valid, check_route. cbn [route_theme route_entity_type].
  destruct (assoc theme_id THEMES) as [t|]; [|right; eauto].
  destruct (has_entity t entity_type); [left | right]; eauto.
Qed.

Lemma get_collection_cases theme_id entity_type w :
  match collection_of w theme_id entity_type with
  | Some c => get_collection theme_id entity_type w = (Return c, w)
  | None => ∃ k, get_collection theme_id entity_type w = (Raised (KeyError k), w)
  end.
Proof.
  unfold collection_of, get_collection.
  destruct (data_store w !! theme_id) as [by_type|]; simpl; [|eauto].
  destruct (by_type !! entity_type); eauto.
Qed.

Lemma put_collection_cases theme_id entity_type c w :
  match data_store w !! theme_id with
  | Some by_type =>
      put_collection theme_id entity_type c w =
      (Return tt,
       World (<[theme_id := <[entity_type := c]> by_type]> (data_store w)) (slept w))
  | None => put_collection theme_id entity_type c w = (Raised (KeyError theme_id), w)
  end.
Proof. unfold put_collection. by destruct (data_store w !! theme_id). Qed.

(** The scan changes nothing, and describes its result: the first record
    whose ["id"] equals the given string, or no such record. *)
Lemma find_entity_cases c entity_id i w :
  (∃ n r, find_entity c entity_id i w = (Return (Some (i + n, r)), w) ∧
          c !! n = Some r ∧ r !! "id" = Some (JStr entity_id) ∧
          ∀ m r', m < n → c !! m = Some r' →
                  is_Some (r' !! "id") ∧ r' !! "id" ≠ Some (JStr entity_id)) ∨
  (find_entity c entity_id i w = (Return None, w) ∧
   ∀ r, r ∈ c → r !! "id" ≠ Some (JStr entity_id)) ∨
  (find_entity c entity_id i w = (Raised (KeyError "id"), w)).
Proof.
  revert i. induction c as [|r c IH]; intros i.
  - right. left. split; [done|]. intros r Hr. by apply elem_of_nil in Hr.
  - cbn [find_entity]. unfold bind, getitem.
    destruct (r !! "id") as [v|] eqn:Hid; [|by right; right].
    change (ret v w) with (Return v, w). cbn beta iota.
    destruct (eq_str v entity_id) eqn:Hv.
    + apply eq_str_true in Hv as ->. left. exists 0, r.
      rewrite Nat.add_0_r. do 3 (split; [done|]). intros; lia.
    + assert (v ≠ JStr entity_id) as Hne.
      { intros ->. by rewrite (proj2 (eq_str_true _ _) eq_refl) in Hv. }
      destruct (IH (S i)) as [(n & r' & Hf & Hn & Hr' & Hmin) | [[Hf Hnone] | Hf]].
      * left. exists (S n), r'. rewrite Nat.add_succ_r. repeat split; try done.
        -- destruct m as [|m]; simpl in *; [by simplify_eq|].
           eapply Hmin; [|done]. lia.
        -- destruct m as [|m]; simpl in *; [simplify_eq; congruence|].
           eapply Hmin; [|done]. lia.
      * right. left. split; [done|]. intros r' [->|Hin]%elem_of_cons; [congruence|].
        by apply Hnone.
      * by right; right.
Qed.

(** ** Request bodies *)

Lemma require_body_cases data w :
  (∃ d, data = Some d ∧ truthy d = true ∧ require_body data w = (Return d, w)) ∨
  ((data = None ∨ ∃ d, data = Some d ∧ truthy d = false) ∧
   require_body data w = (Aborted 400 "Invalid JSON data", w)).
Proof.
  unfold require_body. destruct data as [d|]; [|right; eauto].
  destruct (truthy d) eqn:E; [left | right]; eauto 6.
Qed.

(** C10.  On a valid theme and entity type, the create and the update view
    answer a body that parses to the empty object with
    400 "Invalid JSON data", exactly as they answer an absent or unparsable
    body; and whenever the create view answers 400 with the list of missing
    required fields, the body is present and truthy, so it is not the empty
    object. *)
Theorem empty_object_body_is_invalid_json
    theme_id entity_type entity_id req e w :
  let no_body := Request (token req) None (arg_type req) in
  (route_valid (CreateEntity theme_id entity_type) = true →
   body req = Some (JObj ∅) →
     respond (create_entity (theme_id, entity_type) req e) w
     = (HttpError 400 "Invalid JSON data", w) ∧
     respond (update_entity (theme_id, entity_type, entity_id) req e) w
     = (HttpError 400 "Invalid JSON data", w) ∧
     respond (create_entity (theme_id, entity_type) no_body e) w
     = respond (create_entity (theme_id, entity_type) req e) w ∧
     respond (update_entity (theme_id, entity_type, entity_id) no_body e) w
     = respond (update_entity (theme_id, entity_type, entity_id) req e) w) ∧
  (∀ missing,
     (respond (create_entity (theme_id, entity_type) req e) w).1
     = HttpError 400 ("Missing required fields: " ++ missing) →
     ∃ data, body req = Some data ∧ truthy data = true ∧ data ≠ JObj ∅).
Proof.
  intros no_body. split.
  - intros Hvalid Hbody.
    destruct (check_route_cases theme_id entity_type w) as [[_ Hc] | [Hc _]];
      [|unfold route_valid in *; simpl in *; congruence].
    unfold respond, create_entity, update_entity, bind.
    rewrite Hc, Hbody. done.
  - intros missing H. unfold respond, create_entity, bind in H.
    destruct (check_route_cases theme_id entity_type w) as [[_ Hc] | [_ [d Hc]]];
      rewrite Hc in H; [|discriminate].
    destruct (require_body_cases (body req) w)
      as [(d & Hd & Ht & Hr) | [_ Hr]]; rewrite Hr in H; [|discriminate].
    exists d. do 2 (split; [done|]). intros ->. discriminate.
Qed.

Lemma empty_object_body_is_invalid_json_witness :
  respond (create_entity ("fantasy_rpg", "items") (authorized (Some (JObj ∅)))
             (calm "")) fresh_world
  = (HttpError 400 "Invalid JSON data", fresh_world)
  ∧ ∃ data, body (authorized (Some (JObj {["name" := JStr "X"]}))) = Some data
            ∧ truthy data = true ∧ data ≠ JObj ∅.
Proof.
  split.
  - apply (empty_object_body_is_invalid_json "fantasy_rpg" "items" "1"
             (authorized (Some (JObj ∅))) (calm "") fresh_world);
      reflexivity.
  - apply (proj2 (empty_object_body_is_invalid_json "fantasy_rpg" "items" "1"
             (authorized (Some (JObj {["name" := JStr "X"]}))) (calm "")
             fresh_world) "description").
    reflexivity.
Defined.

(** ** Which computations touch the store *)

Create HintDb store_frame.

Lemma keeps_store_ret {A} (a : A) : keeps_store (ret a).
Proof. done. Qed.

Lemma keeps_store_abort {A} code description : keeps_store (@abort A code description).
Proof. done. Qed.

Lemma keeps_store_raise {A} e : keeps_store (@raise A e).
Proof. done. Qed.

Lemma keeps_store_bind {A B} (m : M A) (k : A → M B) :
  keeps_store m → (∀ a, keeps_store (k a)) → keeps_store (bind m k).
Proof.
  intros Hm Hk w. unfold bind. specialize (Hm w).
  destruct (m w) as [[a|c d|x] w1]; simpl in *; try done.
  by rewrite Hk.
Qed.

Lemma keeps_store_if {A} (b : bool) (m1 m2 : M A) :
  keeps_store m1 → keeps_store m2 → keeps_store (if b then m1 else m2).
Proof. by destruct b. Qed.

Lemma keeps_store_check_route theme_id entity_type :
  keeps_store (check_route theme_id entity_type).
Proof.
  intros w. destruct (check_route_cases theme_id entity_type w)
    as [[_ ->] | [_ [d ->]]]; done.
Qed.

Lemma keeps_store_require_body data : keeps_store (require_body data).
Proof.
  intros w. destruct (require_body_cases data w)
    as [(d & _ & _ & ->) | [_ ->]]; done.
Qed.

Lemma keeps_store_get_collection theme_id entity_type :
  keeps_store (get_collection theme_id entity_type).
Proof.
  intros w. pose proof (get_collection_cases theme_id entity_type w) as H.
  destruct (collection_of w theme_id entity_type); [by rewrite H|].
  destruct H as [k ->]. done.
Qed.

Lemma keeps_store_find_entity c entity_id i :
  keeps_store (find_entity c entity_id i).
Proof.
  intros w. destruct (find_entity_cases c entity_id i w)
    as [(n & r & -> & _) | [[-> _] | ->]]; done.
Qed.

Lemma keeps_store_py_in field data : keeps_store (py_in field data).
Proof. by destruct data. Qed.

Lemma keeps_store_unpack data : keeps_store (unpack data).
Proof. by destruct data. Qed.

Lemma keeps_store_getitem entity key : keeps_store (getitem entity key).
Proof. unfold getitem. by destruct (entity !! key). Qed.

Lemma keeps_store_py_sleep d : keeps_store (py_sleep d).
Proof. intros w. unfold py_sleep. by destruct (sleep_refusal d). Qed.

#[export] Hint Resolve keeps_store_ret keeps_store_abort keeps_store_raise
  keeps_store_bind keeps_store_if keeps_store_check_route
  keeps_store_require_body keeps_store_get_collection keeps_store_find_entity
  keeps_store_py_in keeps_store_unpack keeps_store_getitem keeps_store_py_sleep
  : store_frame.

Lemma keeps_store_all_in fields data : keeps_store (all_in fields data).
Proof.
  induction fields as [|f fs IH]; cbn [all_in]; [done|].
  apply keeps_store_bind; [auto with store_frame|].
  intros []; auto with store_frame.
Qed.

Lemma keeps_store_not_in fields data : keeps_store (not_in fields data).
Proof.
  induction fields as [|f fs IH]; cbn [not_in]; auto 6 with store_frame.
Qed.

Lemma keeps_store_random_choices {A} (population : list A) weights u :
  keeps_store (random_choices population weights u).
Proof.
  unfold random_choices. repeat case_match; auto with store_frame.
Qed.

#[export] Hint Resolve keeps_store_all_in keeps_store_not_in
  keeps_store_random_choices : store_frame.

Lemma atomic_bind {A B} (m : M A) (k : A → M B) ok :
  keeps_store m → (∀ a, atomic (k a) ok) → atomic (bind m k) ok.
Proof.
  intros Hm Hk w. unfold bind. specialize (Hm w).
  destruct (m w) as [[a|c d|x] w1]; simpl in *; try done.
  specialize (Hk a w1). destruct (k a w1) as [[b|c d|x] w2]; simpl in *;
    congruence.
Qed.

Lemma atomic_keeps_store {A} (m : M A) ok :
  keeps_store m → (∀ w a, (m w).1 = Return a → ok a) → atomic m ok.
Proof.
  intros Hm Hok w. destruct (m w) as [[a|c d|x] w1] eqn:E; simpl.
  - apply (Hok w). by rewrite E.
  - specialize (Hm w). by rewrite E in Hm.
  - specialize (Hm w). by rewrite E in Hm.
Qed.

Lemma atomic_abort {A} code description (ok : A → Prop) :
  atomic (abort code description) ok.
Proof. done. Qed.

(** The one mutation of a view is its last effect: once the collection is
    written, the view returns. *)
Lemma atomic_put_then_ret theme_id entity_type c (r : reply) :
  atomic (put_collection theme_id entity_type c ;;; ret r) (λ r', r' = r).
Proof.
  intros w. unfold bind.
  pose proof (put_collection_cases theme_id entity_type c w) as H.
  destruct (data_store w !! theme_id); by rewrite H.
Qed.

Lemma atomic_success_put theme_id entity_type c (r : reply) :
  success r →
  atomic (c' <~ get_collection theme_id entity_type ;;
          put_collection theme_id entity_type (c c') ;;; ret r) success.
Proof.
  intros Hr. apply atomic_bind; [auto with store_frame|]. intros c' w.
  pose proof (atomic_put_then_ret theme_id entity_type (c c') r w) as H.
  destruct ((put_collection _ _ _ ;;; ret r) w) as [[a|? ?|?] w1]; simpl in *;
    by subst.
Qed.

Lemma atomic_list_entities args req e : atomic (list_entities args req e) success.
Proof.
  destruct args as [theme_id entity_type]. unfold list_entities.
  apply atomic_keeps_store; [auto 6 with store_frame|].
  intros w a. unfold bind.
  repeat (case_match; simpl; try done). intros [= <-]. by left.
Qed.

Lemma atomic_get_entity args req e : atomic (get_entity args req e) success.
Proof.
  destruct args as [[theme_id entity_type] entity_id]. unfold get_entity.
  do 3 (apply atomic_bind; [auto with store_frame|]; intros ?).
  repeat case_match; [|apply atomic_abort].
  apply atomic_keeps_store; [auto with store_frame|].
  intros w r [= <-]. by left.
Qed.

Lemma atomic_create_entity args req e : atomic (create_entity args req e) success.
Proof.
  destruct args as [theme_id entity_type]. unfold create_entity.
  do 4 (apply atomic_bind; [auto 7 with store_frame|]; intros ?).
  do 2 (apply atomic_bind; [auto with store_frame|]; intros ?).
  apply (atomic_success_put _ _ (λ c, (c ++ [_])%list)). by right.
Qed.

Lemma atomic_update_entity args req e : atomic (update_entity args req e) success.
Proof.
  destruct args as [[theme_id entity_type] entity_id]. unfold update_entity.
  do 4 (apply atomic_bind; [auto with store_frame|]; intros ?).
  repeat case_match; [|apply atomic_abort].
  do 2 (apply atomic_bind; [auto with store_frame|]; intros ?).
  apply (atomic_success_put _ _ (λ c, <[_ := _]> c)). by left.
Qed.

Lemma atomic_delete_entity args req e : atomic (delete_entity args req e) success.
Proof.
  destruct args as [[theme_id entity_type] entity_id]. unfold delete_entity.
  do 3 (apply atomic_bind; [auto with store_frame|]; intros ?).
  repeat case_match; [|apply atomic_abort].
  apply (atomic_success_put _ _ (λ c, delete _ c)). by left.
Qed.

Section DecoratorsFrame.
Context {Args : Type} (f : view Args).

Lemma keeps_store_fault_gate e : keeps_store (fault_gate e).
Proof. unfold fault_gate. auto 10 with store_frame. Qed.

Lemma atomic_simulate_errors args req e ok :
  atomic (f args req e) ok → atomic (simulate_errors f args req e) ok.
Proof.
  intros Hf. rewrite simulate_errors_gate.
  apply atomic_bind; [apply keeps_store_fault_gate | done].
Qed.

Lemma atomic_token_required args req e ok :
  atomic (f args req e) ok → atomic (token_required f args req e) ok.
Proof.
  intros Hf. unfold token_required. repeat case_match; done || apply atomic_abort.
Qed.

(** A decorated view that returns has run the view itself, on a world
    with the same store. *)
Lemma decorated_return args req e w r w' :
  token_required (simulate_errors f) args req e w = (Return r, w') →
  token req = Some API_TOKEN ∧
  ∃ w1, data_store w1 = data_store w ∧ f args req e w1 = (Return r, w').
Proof.
  unfold token_required. destruct (token req) as [t|]; [|done].
  repeat case_bool_decide; try done. subst t. intros Hrun. split; [done|].
  rewrite simulate_errors_gate in Hrun. unfold bind in Hrun.
  pose proof (keeps_store_fault_gate e w) as Hg.
  destruct (fault_gate e w) as [[[]|c d|x] w1]; try done. eauto.
Qed.
End DecoratorsFrame.

Lemma atomic_test_errors req e : atomic (test_errors tt req e) success.
Proof.
  unfold test_errors.
  repeat case_match; try apply atomic_abort;
    try (apply atomic_keeps_store; [auto with store_frame|]);
    try (intros w r [= <-]; by left); try done.
Qed.

Lemma atomic_registered_view rt req e : atomic (registered_view rt req e) success.
Proof.
  destruct rt; cbn [registered_view];
    try (apply atomic_token_required, atomic_simulate_errors).
  - apply atomic_list_entities.
  - apply atomic_create_entity.
  - apply atomic_get_entity.
  - apply atomic_update_entity.
  - apply atomic_delete_entity.
  - apply atomic_test_errors.
Qed.

(** ** Error responses and the store *)

(** C9.  Whatever the route, the request, the configuration and the draws:
    if the response is not a 2xx, the whole [data_store] is what it was
    before the request.  Every abort (401, 403, 429, 500, 422, 404, 400) and
    every uncaught exception (500) happens before the one mutation of a
    view. *)
Theorem error_responses_leave_store_untouched rt req e w :
  ¬ (200 ≤ status_code (serve rt req e w).1 < 300) →
  data_store (serve rt req e w).2 = data_store w.
Proof.
  unfold serve, respond. intros Herr.
  pose proof (atomic_registered_view rt req e w) as H.
  destruct (registered_view rt req e w) as [[r|c d|x] w1]; simpl in *; try done.
  destruct H as [H | H]; rewrite H in Herr; lia.
Qed.

Lemma error_responses_leave_store_untouched_witness :
  data_store (serve (CreateEntity "fantasy_rpg" "items")
                (authorized (Some (JArr [JStr "name"; JStr "description"])))
                (calm "") fresh_world).2
  = data_store fresh_world.
Proof.
  apply (error_responses_leave_store_untouched
           (CreateEntity "fantasy_rpg" "items")
           (authorized (Some (JArr [JStr "name"; JStr "description"])))
           (calm "") fresh_world).
  vm_compute. lia.
Defined.

(** ** What the mutating views do when they succeed *)

Lemma serve_json rt req e w status payload w' :
  serve rt req e w = (Json status payload, w') →
  registered_view rt req e w = (Return (Jsonify status payload), w').
Proof.
  unfold serve, respond, handle_exception.
  destruct (registered_view rt req e w) as [[[s p]|c d|x] w1]; simpl;
    intros ?; by simplify_eq.
Qed.

Lemma collection_of_written ds (t k : string) by_type c sl :
  collection_of (World (<[t := <[k := c]> by_type]> ds) sl) t k = Some c.
Proof.
  unfold collection_of. simpl. rewrite lookup_insert_eq. simpl.
  by rewrite lookup_insert_eq.
Qed.

Lemma collection_of_other ds (t k t' k' : string) by_type c sl :
  ds !! t = Some by_type → (t', k') ≠ (t, k) →
  collection_of (World (<[t := <[k := c]> by_type]> ds) sl) t' k'
  = collection_of (World ds sl) t' k'.
Proof.
  intros Hds Hne. unfold collection_of. simpl.
  destruct (decide (t' = t)) as [->|Ht].
  - rewrite lookup_insert_eq, Hds. simpl. rewrite lookup_insert_ne; [done|].
    congruence.
  - by rewrite lookup_insert_ne.
Qed.

Lemma update_entity_return theme_id entity_type entity_id req e w r w' :
  update_entity (theme_id, entity_type, entity_id) req e w = (Return r, w') →
  ∃ c i old fields created by_type,
    collection_of w theme_id entity_type = Some c ∧
    data_store w !! theme_id = Some by_type ∧
    body req = Some (JObj fields) ∧
    c !! i = Some old ∧
    old !! "id" = Some (JStr entity_id) ∧
    (∀ m r', m < i → c !! m = Some r' → r' !! "id" ≠ Some (JStr entity_id)) ∧
    old !! "created_at" = Some created ∧
    let updated : gmap string json :=
      <["updated_at" := JStr (now e)]>
        (<["created_at" := created]>
           (<["id" := JStr entity_id]> (fields ∪ old))) in
    r = Jsonify 200 (JObj updated) ∧
    w' = World (<[theme_id := <[entity_type := <[i := updated]> c]> by_type]>
                  (data_store w)) (slept w).
Proof.
  unfold update_entity, bind.
  destruct (check_route_cases theme_id entity_type w) as [[_ ->] | [_ [d ->]]];
    [|done].
  destruct (require_body_cases (body req) w) as [(data & Hb & _ & ->) | [_ ->]];
    [|done].
  pose proof (get_collection_cases theme_id entity_type w) as Hc.
  destruct (collection_of w theme_id entity_type) as [c|] eqn:Hcoll;
    [rewrite Hc | by destruct Hc as [k ->]].
  destruct (find_entity_cases c entity_id 0 w)
    as [(i & old & -> & Hi & Hid & Hmin) | [[-> _] | ->]]; [|done..].
  cbn [Nat.add]. unfold unpack, getitem.
  destruct data as [| | | | | |fields]; try done.
  change (ret fields w) with (Return fields, w). cbn beta iota.
  destruct (old !! "created_at") as [created|] eqn:Hcr; [|done].
  change (ret created w) with (Return created, w). cbn beta iota.
  rewrite Hc.
  pose proof (put_collection_cases theme_id entity_type
    (<[i := <["updated_at" := JStr (now e)]>
              (<["created_at" := created]>
                 (<["id" := JStr entity_id]> (fields ∪ old)))]> c) w) as Hp.
  destruct (data_store w !! theme_id) as [by_type|] eqn:Hds;
    rewrite Hp; [|done].
  intros [= <- <-]. exists c, i, old, fields, created, by_type.
  repeat split; try done. intros m r' Hm Hr'. by eapply Hmin.
Qed.

(** C5.  A successful update (status 200), whatever fields the body carries:
    the body is a mapping [fields]; the record [old] that is replaced is the
    first of the collection whose id is the one of the route, at some
    position [i]; the record [updated] that is returned has the [id] and the
    [created_at] of [old], [updated_at] set to the current time, and for
    every other key the value of [fields] if it has one and that of [old]
    otherwise; the collection afterwards is the old one with [updated] at
    position [i], every other position and every other collection being
    unchanged. *)
Theorem update_keeps_id_and_created_at
    theme_id entity_type entity_id req e w payload w' :
  serve (UpdateEntity theme_id entity_type entity_id) req e w
  = (Json 200 payload, w') →
  ∃ c i (old fields updated : gmap string json),
    collection_of w theme_id entity_type = Some c ∧
    body req = Some (JObj fields) ∧
    c !! i = Some old ∧
    old !! "id" = Some (JStr entity_id) ∧
    is_Some (old !! "created_at") ∧
    payload = JObj updated ∧
    updated !! "id" = old !! "id" ∧
    updated !! "created_at" = old !! "created_at" ∧
    updated !! "updated_at" = Some (JStr (now e)) ∧
    (∀ key, key ∉ ["id"; "created_at"; "updated_at"] →
       updated !! key = match fields !! key with
                        | Some v => Some v
                        | None => old !! key
                        end) ∧
    collection_of w' theme_id entity_type = Some (<[i := updated]> c) ∧
    (<[i := updated]> c) !! i = Some updated ∧
    length (<[i := updated]> c) = length c ∧
    (∀ j, j ≠ i → (<[i := updated]> c) !! j = c !! j) ∧
    (∀ t k, (t, k) ≠ (theme_id, entity_type) →
       collection_of w' t k = collection_of w t k).
Proof.
  intros Hserve. apply serve_json in Hserve. cbn [registered_view] in Hserve.
  apply decorated_return in Hserve as (_ & w1 & Hw1 & Hrun).
  apply update_entity_return in Hrun
    as (c & i & old & fields & created & by_type
        & Hc & Hds & Hb & Hi & Hid & _ & Hcr & Hr & ->).
  injection Hr as ->.
  eexists c, i, old, fields, _.
  assert (collection_of w theme_id entity_type = Some c) as Hcw.
  { unfold collection_of in *. by rewrite <- Hw1. }
  split; [done|]. split; [done|]. split; [done|]. split; [done|].
  split; [by rewrite Hcr|]. split; [reflexivity|].
  split; [by rewrite lookup_insert_ne, lookup_insert_ne, lookup_insert_eq|].
  split; [by rewrite lookup_insert_ne, lookup_insert_eq|].
  split; [by rewrite lookup_insert_eq|].
  split.
  { intros key Hkey. rewrite !elem_of_cons, elem_of_nil in Hkey.
    rewrite !lookup_insert_ne by naive_solver.
    rewrite lookup_union. by destruct (fields !! key), (old !! key). }
  split; [apply collection_of_written|].
  split; [apply list_lookup_insert_eq; by eapply lookup_lt_Some|].
  split; [apply length_insert|].
  split; [intros j Hj; by apply list_lookup_insert_ne|].
  intros t k Hne. rewrite collection_of_other by done.
  unfold collection_of. simpl. by rewrite Hw1.
Qed.

Lemma create_entity_return theme_id entity_type req e w r w' :
  create_entity (theme_id, entity_type) req e w = (Return r, w') →
  ∃ c (fields : gmap string json) by_type,
    collection_of w theme_id entity_type = Some c ∧
    data_store w !! theme_id = Some by_type ∧
    body req = Some (JObj fields) ∧
    is_Some (fields !! "name") ∧ is_Some (fields !! "description") ∧
    let new_entity : gmap string json :=
      <["created_at" := JStr (now e)]>
        (fields ∪ {["id" := JStr (pretty (length c + 1)%nat)]}) in
    r = Jsonify 201 (JObj new_entity) ∧
    w' = World (<[theme_id := <[entity_type := (c ++ [new_entity])%list]> by_type]>
                  (data_store w)) (slept w).
Proof.
  unfold create_entity, bind.
  destruct (check_route_cases theme_id entity_type w) as [[_ ->] | [_ [d ->]]];
    [|done].
  destruct (require_body_cases (body req) w) as [(data & Hb & _ & ->) | [_ ->]];
    [|done].
  pose proof (get_collection_cases theme_id entity_type w) as Hc.
  destruct data as [| | | | s | l | fields];
    try (unfold required_fields; by destruct (name_first e)).
  - (* a str body: [**data] raises *)
    destruct (all_in (required_fields e) (JStr s) w) as [[[]|? ?|?] w1] eqn:Hall;
      try done.
    + pose proof (keeps_store_all_in (required_fields e) (JStr s) w) as Hk.
      rewrite Hall in Hk. simpl in Hk.
      change (ret () w1) with (Return (), w1). cbn beta iota.
      pose proof (get_collection_cases theme_id entity_type w1) as Hc1.
      destruct (collection_of w1 theme_id entity_type);
        [by rewrite Hc1 | by destruct Hc1 as [k ->]].
    + destruct (not_in (required_fields e) (JStr s) w1) as [[?|? ?|?] ?]; done.
  - (* a list body: [**data] raises *)
    destruct (all_in (required_fields e) (JArr l) w) as [[[]|? ?|?] w1] eqn:Hall;
      try done.
    + change (ret () w1) with (Return (), w1). cbn beta iota.
      pose proof (get_collection_cases theme_id entity_type w1) as Hc1.
      destruct (collection_of w1 theme_id entity_type);
        [by rewrite Hc1 | by destruct Hc1 as [k ->]].
    + destruct (not_in (required_fields e) (JArr l) w1) as [[?|? ?|?] ?]; done.
  - (* a mapping *)
    assert (all_in (required_fields e) (JObj fields) w
            = (Return (bool_decide (is_Some (fields !! "name")) &&
                       bool_decide (is_Some (fields !! "description"))), w)) as ->.
    { unfold required_fields. destruct (name_first e); cbn [all_in py_in];
        unfold bind, ret; repeat case_bool_decide; done. }
    destruct (bool_decide (is_Some (fields !! "name"))) eqn:Hn; cycle 1.
    { cbn [andb].
      destruct (not_in (required_fields e) (JObj fields) w) as [[?|? ?|?] ?]; done. }
    destruct (bool_decide (is_Some (fields !! "description"))) eqn:Hd; cycle 1.
    { cbn [andb].
      destruct (not_in (required_fields e) (JObj fields) w) as [[?|? ?|?] ?]; done. }
    cbn [andb]. change (ret () w) with (Return (), w). cbn beta iota.
    destruct (collection_of w theme_id entity_type) as [c|] eqn:Hcoll;
      [rewrite Hc | by destruct Hc as [k ->]].
    change (unpack (JObj fields) w) with (Return fields, w). cbn beta iota.
    rewrite Hc.
    pose proof (put_collection_cases theme_id entity_type
      (c ++ [<["created_at" := JStr (now e)]>
               (fields ∪ {["id" := JStr (pretty (length c + 1)%nat)]})]) w) as Hp.
    destruct (data_store w !! theme_id) as [by_type|] eqn:Hds;
      rewrite Hp; [|done].
    intros [= <- <-]. exists c, fields, by_type.
    apply bool_decide_eq_true in Hn, Hd. done.
Qed.

(** X20.  What a successful create stores and returns: the record is appended at
    the end; its [created_at] is the current time whatever the body says;
    its [id] is the one of the body when the body has one, and
    [str(len(collection) + 1)] only otherwise; every other key is the
    body's. *)
Lemma create_entity_assigns theme_id entity_type req e w status payload w' :
  serve (CreateEntity theme_id entity_type) req e w = (Json status payload, w') →
  ∃ c (fields new_entity : gmap string json),
    status = 201 ∧
    collection_of w theme_id entity_type = Some c ∧
    body req = Some (JObj fields) ∧
    is_Some (fields !! "name") ∧ is_Some (fields !! "description") ∧
    payload = JObj new_entity ∧
    collection_of w' theme_id entity_type = Some (c ++ [new_entity])%list ∧
    new_entity !! "created_at" = Some (JStr (now e)) ∧
    new_entity !! "id" = match fields !! "id" with
                         | Some v => Some v
                         | None => Some (JStr (pretty (length c + 1)%nat))
                         end ∧
    (∀ key, key ∉ ["id"; "created_at"] → new_entity !! key = fields !! key).
Proof.
  intros Hserve. apply serve_json in Hserve. cbn [registered_view] in Hserve.
  apply decorated_return in Hserve as (_ & w1 & Hw1 & Hrun).
  apply create_entity_return in Hrun
    as (c & fields & by_type & Hc & Hds & Hb & Hn & Hd & Hr & ->).
  injection Hr as -> ->.
  eexists c, fields, _.
  split; [done|].
  split; [unfold collection_of in *; by rewrite <- Hw1|].
  do 3 (split; [done|]). split; [reflexivity|].
  split; [apply collection_of_written|].
  split; [by rewrite lookup_insert_eq|].
  split.
  { rewrite lookup_insert_ne by done. rewrite lookup_union.
    destruct (fields !! "id"); by rewrite lookup_singleton_eq. }
  intros key Hkey. rewrite !elem_of_cons, elem_of_nil in Hkey.
  rewrite lookup_insert_ne by naive_solver. rewrite lookup_union.
  rewrite lookup_singleton_ne by naive_solver. by destruct (fields !! key).
Qed.

Lemma delete_entity_return theme_id entity_type entity_id req e w r w' :
  delete_entity (theme_id, entity_type, entity_id) req e w = (Return r, w') →
  ∃ c i (deleted : gmap string json) by_type,
    collection_of w theme_id entity_type = Some c ∧
    data_store w !! theme_id = Some by_type ∧
    c !! i = Some deleted ∧
    deleted !! "id" = Some (JStr entity_id) ∧
    (∀ m r', m < i → c !! m = Some r' → r' !! "id" ≠ Some (JStr entity_id)) ∧
    r = Jsonify 200
          (JObj (<["message" := JStr ("Entity '" ++ entity_id ++
                                      "' deleted successfully")]>
                (<["deleted" := JObj deleted]> ∅))) ∧
    w' = World (<[theme_id := <[entity_type := delete i c]> by_type]>
                  (data_store w)) (slept w).
Proof.
  unfold delete_entity, bind.
  destruct (check_route_cases theme_id entity_type w) as [[_ ->] | [_ [d ->]]];
    [|done].
  pose proof (get_collection_cases theme_id entity_type w) as Hc.
  destruct (collection_of w theme_id entity_type) as [c|] eqn:Hcoll;
    [rewrite Hc | by destruct Hc as [k ->]].
  destruct (find_entity_cases c entity_id 0 w)
    as [(i & deleted & -> & Hi & Hid & Hmin) | [[-> _] | ->]]; [|done..].
  cbn [Nat.add]. rewrite Hc.
  pose proof (put_collection_cases theme_id entity_type (delete i c) w) as Hp.
  destruct (data_store w !! theme_id) as [by_type|] eqn:Hds;
    rewrite Hp; [|done].
  intros [= <- <-]. exists c, i, deleted, by_type.
  repeat split; try done. intros m r' Hm Hr'. by eapply Hmin.
Qed.

(** A successful delete removes exactly one record, the first whose id is
    the one of the route: the collection is one shorter, the records before
    it stay where they were and those after it move up by one. *)
Lemma delete_removes_exactly_one
    theme_id entity_type entity_id req e w status payload w' :
  serve (DeleteEntity theme_id entity_type entity_id) req e w
  = (Json status payload, w') →
  ∃ c i (deleted : gmap string json),
    status = 200 ∧
    collection_of w theme_id entity_type = Some c ∧
    c !! i = Some deleted ∧
    deleted !! "id" = Some (JStr entity_id) ∧
    (∀ m r', m < i → c !! m = Some r' → r' !! "id" ≠ Some (JStr entity_id)) ∧
    collection_of w' theme_id entity_type = Some (delete i c) ∧
    S (length (delete i c)) = length c ∧
    (∀ j, j < i → delete i c !! j = c !! j) ∧
    (∀ j, (i ≤ j)%nat → delete i c !! j = c !! S j).
Proof.
  intros Hserve. apply serve_json in Hserve. cbn [registered_view] in Hserve.
  apply decorated_return in Hserve as (_ & w1 & Hw1 & Hrun).
  apply delete_entity_return in Hrun
    as (c & i & deleted & by_type & Hc & Hds & Hi & Hid & Hmin & Hr & ->).
  injection Hr as -> ->.
  exists c, i, deleted.
  split; [done|].
  split; [unfold collection_of in *; by rewrite <- Hw1|].
  do 3 (split; [done|]).
  split; [apply collection_of_written|].
  split.
  { rewrite length_delete by eauto. apply lookup_lt_Some in Hi. lia. }
  split; [intros j Hj; by apply list_lookup_delete_lt|].
  intros j Hj. by apply list_lookup_delete_ge.
Qed.

Lemma find_entity_no_key_error c entity_id i w k :
  (∀ r : gmap string json, r ∈ c → is_Some (r !! "id")) →
  find_entity c entity_id i w ≠ (Raised (KeyError k), w).
Proof.
  revert i. induction c as [|r c IH]; intros i Hids; [done|].
  cbn [find_entity]. unfold bind, getitem.
  destruct (Hids r) as [v Hv]; [by left|].
  rewrite Hv. change (ret v w) with (Return v, w). cbn beta iota.
  destruct (eq_str v entity_id); [done|].
  apply IH. intros r' Hr'. apply Hids. by right.
Qed.

(** The get view on a collection none of whose records has the id. *)
Lemma get_entity_not_found theme_id entity_type entity_id req e w c :
  route_valid (GetEntity theme_id entity_type entity_id) = true →
  collection_of w theme_id entity_type = Some c →
  (∀ r, r ∈ c → is_Some (r !! "id") ∧ r !! "id" ≠ Some (JStr entity_id)) →
  respond (get_entity (theme_id, entity_type, entity_id) req e) w
  = (HttpError 404 ("Entity with ID '" ++ entity_id ++ "' not found"), w).
Proof.
  intros Hvalid Hcoll Hnone. unfold respond, get_entity, bind.
  destruct (check_route_cases theme_id entity_type w) as [[_ ->] | [Hbad _]];
    [|unfold route_valid in *; simpl in *; congruence].
  pose proof (get_collection_cases theme_id entity_type w) as Hc.
  rewrite Hcoll in Hc. rewrite Hc.
  destruct (find_entity_cases c entity_id 0 w)
    as [(i & r & _ & Hi & Hid & _) | [[-> _] | Hf]]; [|done|].
  - apply list_elem_of_lookup_2 in Hi. by destruct (Hnone r Hi).
  - exfalso. eapply find_entity_no_key_error; [|done].
    intros r Hr. by apply Hnone.
Qed.

(** X21.  When the deleted record was the only one with its id, a get for that id
    right after the delete is answered 404. *)
Lemma get_after_delete_of_unique_id
    theme_id entity_type entity_id req e w status payload w' req' e' :
  serve (DeleteEntity theme_id entity_type entity_id) req e w
  = (Json status payload, w') →
  (∀ c, collection_of w theme_id entity_type = Some c →
        (∀ r, r ∈ c → is_Some (r !! "id")) ∧
        ∀ i j r r', c !! i = Some r → c !! j = Some r' →
                    r !! "id" = Some (JStr entity_id) →
                    r' !! "id" = Some (JStr entity_id) → i = j) →
  token req' = Some API_TOKEN →
  (draw_gate e' <? error_rate (cfg e'))%float = false →
  serve (GetEntity theme_id entity_type entity_id) req' e' w'
  = (HttpError 404 ("Entity with ID '" ++ entity_id ++ "' not found"), w').
Proof.
  intros Hdel Huniq Htok Hgate.
  assert (route_valid (GetEntity theme_id entity_type entity_id) = true) as Hvalid.
  { apply serve_json in Hdel. cbn [registered_view] in Hdel.
    apply decorated_return in Hdel as (_ & w1 & _ & Hrun).
    unfold delete_entity, bind in Hrun.
    destruct (check_route_cases theme_id entity_type w1) as [[Hv _] | [_ [d Hd]]];
      [done | by rewrite Hd in Hrun]. }
  apply delete_removes_exactly_one in Hdel
    as (c & i & deleted & _ & Hc & Hi & Hid & _ & Hc' & _ & Hlt & Hge).
  destruct (Huniq c Hc) as [Hids Hone].
  destruct (serve_entity_route (GetEntity theme_id entity_type entity_id)
              req' e' w' eq_refl) as (_ & _ & ->); [|done].
  cbn [guarded_view]. unfold respond at 1.
  rewrite simulate_errors_pass by done.
  fold (respond (get_entity (theme_id, entity_type, entity_id) req' e') w').
  apply (get_entity_not_found _ _ _ _ _ _ (delete i c)); [done..|].
  intros r Hr. split; [apply Hids; by eapply list_elem_of_delete_inv|].
  intros Hrid. apply list_elem_of_lookup in Hr as [j Hj].
  destruct (decide (j < i)) as [Hji|Hji].
  - rewrite Hlt in Hj by done. specialize (Hone _ _ _ _ Hi Hj Hid Hrid). lia.
  - rewrite Hge in Hj by lia. specialize (Hone _ _ _ _ Hi Hj Hid Hrid). lia.
Qed.

Lemma update_keeps_id_and_created_at_witness :
  ∃ (old updated : gmap string json),
    payload_of (serve (UpdateEntity "fantasy_rpg" "items" "1")
                  (authorized (Some body_rename)) (calm "2024-01-01 11:00:00")
                  one_item_world).1 = JObj updated ∧
    old !! "id" = Some (JStr "1") ∧
    updated !! "id" = old !! "id" ∧
    updated !! "created_at" = old !! "created_at" ∧
    updated !! "updated_at" = Some (JStr "2024-01-01 11:00:00").
Proof.
  destruct (update_keeps_id_and_created_at "fantasy_rpg" "items" "1"
              (authorized (Some body_rename)) (calm "2024-01-01 11:00:00")
              one_item_world
              (payload_of
                 (serve (UpdateEntity "fantasy_rpg" "items" "1")
                    (authorized (Some body_rename)) (calm "2024-01-01 11:00:00")
                    one_item_world).1)
              (serve (UpdateEntity "fantasy_rpg" "items" "1")
                 (authorized (Some body_rename)) (calm "2024-01-01 11:00:00")
                 one_item_world).2)
    as (c & i & old & fields & updated & Hc & Hb & Hi & Hid & _ & Hp
        & Hid' & Hcr & Hup & _).
  { vm_compute. reflexivity. }
  exists old, updated.
  split; [exact Hp|]. split; [exact Hid|]. split; [exact Hid'|].
  split; [exact Hcr|]. exact Hup.
Defined.

(** ** Ids after a delete *)

Lemma reachable_serve_all rs w : reachable w → reachable (serve_all rs w).
Proof.
  revert w. induction rs as [|[[rt req] e] rs IH]; intros w Hw; [done|].
  apply IH. by constructor.
Qed.

(** C2 fails on the code.  From the empty collections: two creates, the
    delete of record "1" and a third create leave a collection of two
    records, created at different times, that both carry the id "2". *)
Theorem create_after_delete_duplicates_an_id :
  let w := serve_all create_delete_create fresh_world in
  reachable w ∧
  column "id" <$> collection_of w "fantasy_rpg" "items"
  = Some [Some (JStr "2"); Some (JStr "2")] ∧
  column "created_at" <$> collection_of w "fantasy_rpg" "items"
  = Some [Some (JStr "2024-01-01 10:00:01"); Some (JStr "2024-01-01 10:00:03")].
Proof.
  intros w. split; [apply reachable_serve_all, reach_initial|].
  split; vm_compute; reflexivity.
Qed.

(** C3 fails on the code.  A create on the empty collection whose body
    carries ["id": "99"] answers 201 with a record whose id is "99", and
    stores it, where [str(len(collection) + 1)] is "1". *)
Theorem create_takes_the_id_of_the_body :
  let res := serve (CreateEntity "fantasy_rpg" "items")
                   (authorized (Some body_xy_id99))
                   (calm "2024-01-01 10:00:00") fresh_world in
  collection_of fresh_world "fantasy_rpg" "items" = Some [] ∧
  pretty (length (@nil (gmap string json)) + 1)%nat = "1" ∧
  status_code res.1 = 201 ∧
  field_of (payload_of res.1) "id" = Some (JStr "99") ∧
  column "id" <$> collection_of res.2 "fantasy_rpg" "items"
  = Some [Some (JStr "99")].
Proof. repeat split; vm_compute; reflexivity. Qed.

(** C4 fails on the code.  In the reachable world where two records carry
    the id "2", the delete of "2" succeeds and the get of "2" that follows is
    answered 200 with the remaining record, not 404. *)
Theorem get_after_delete_finds_the_duplicate :
  let w := serve_all create_delete_create fresh_world in
  let del := serve (DeleteEntity "fantasy_rpg" "items" "2") (authorized None)
                   (calm "2024-01-01 10:00:04") w in
  let get := serve (GetEntity "fantasy_rpg" "items" "2") (authorized None)
                   (calm "2024-01-01 10:00:05") del.2 in
  reachable w ∧
  status_code del.1 = 200 ∧
  column "id" <$> collection_of del.2 "fantasy_rpg" "items"
  = Some [Some (JStr "2")] ∧
  status_code get.1 = 200 ∧
  field_of (payload_of get.1) "id" = Some (JStr "2").
Proof.
  intros w del get. split; [apply reachable_serve_all, reach_initial|].
  repeat split; vm_compute; reflexivity.
Qed.

(** * Further properties of the code *)

(** ** One request, one rewrite *)

Lemma keeps_store_decorated {Args} (f : view Args) args req e :
  keeps_store (f args req e) →
  keeps_store (token_required (simulate_errors f) args req e).
Proof.
  intros Hf. unfold token_required.
  repeat case_match; auto with store_frame.
  rewrite simulate_errors_gate.
  apply keeps_store_bind; [apply keeps_store_fault_gate | done].
Qed.

Lemma keeps_store_list_entities args req e : keeps_store (list_entities args req e).
Proof. destruct args. unfold list_entities. auto 6 with store_frame. Qed.

Lemma keeps_store_get_entity args req e : keeps_store (get_entity args req e).
Proof.
  destruct args as [[? ?] ?]. unfold get_entity.
  do 3 (apply keeps_store_bind; [auto with store_frame|]; intros ?).
  unfold not_found. repeat case_match; auto with store_frame.
Qed.

Lemma keeps_store_test_errors req e : keeps_store (test_errors tt req e).
Proof. unfold test_errors. repeat case_match; auto with store_frame. Qed.

(** Whatever the route, the request, the configuration and the draws, a
    request leaves [data_store] as it was or rewrites exactly one existing
    collection, in one of three ways: a record built from the body is
    appended, the record at one position is replaced by its update, or the
    record at one position is removed. *)
Lemma store_step_of_serve rt req e w :
  store_step (now e) w (serve rt req e w).2.
Proof.
  unfold serve, respond.
  destruct (registered_view rt req e w) as [[r|c d|x] w'] eqn:Hrun; simpl;
    try (pose proof (atomic_registered_view rt req e w) as Ha;
         rewrite Hrun in Ha; by apply store_same).
  destruct rt; cbn [registered_view] in Hrun.
  - apply store_same.
    pose proof (keeps_store_decorated list_entities (theme_id, entity_type) req e
                  (keeps_store_list_entities _ _ _) w) as Hk.
    by rewrite Hrun in Hk.
  - apply decorated_return in Hrun as (_ & w1 & Hw1 & Hrun).
    apply create_entity_return in Hrun
      as (c & fields & by_type & Hc & Hds & Hb & Hn & Hd & _ & ->).
    apply (store_write _ _ _ theme_id entity_type c
             (c ++ [created_record fields (length c) (now e)])).
    + unfold collection_of in *. by rewrite <- Hw1.
    + by constructor.
    + apply collection_of_written.
    + intros t' k' Hne. rewrite collection_of_other by done.
      unfold collection_of. simpl. by rewrite Hw1.
  - apply store_same.
    pose proof (keeps_store_decorated get_entity (theme_id, entity_type, entity_id)
                  req e (keeps_store_get_entity _ _ _) w) as Hk.
    by rewrite Hrun in Hk.
  - apply decorated_return in Hrun as (_ & w1 & Hw1 & Hrun).
    apply update_entity_return in Hrun
      as (c & i & old & fields & created & by_type
          & Hc & Hds & Hb & Hi & Hid & _ & Hcr & _ & ->).
    apply (store_write _ _ _ theme_id entity_type c
             (<[i := updated_record old fields entity_id created (now e)]> c)).
    + unfold collection_of in *. by rewrite <- Hw1.
    + by econstructor.
    + apply collection_of_written.
    + intros t' k' Hne. rewrite collection_of_other by done.
      unfold collection_of. simpl. by rewrite Hw1.
  - apply decorated_return in Hrun as (_ & w1 & Hw1 & Hrun).
    apply delete_entity_return in Hrun
      as (c & i & deleted & by_type & Hc & Hds & Hi & _ & _ & _ & ->).
    apply (store_write _ _ _ theme_id entity_type c (delete i c)).
    + unfold collection_of in *. by rewrite <- Hw1.
    + by econstructor.
    + apply collection_of_written.
    + intros t' k' Hne. rewrite collection_of_other by done.
      unfold collection_of. simpl. by rewrite Hw1.
  - apply store_same.
    pose proof (keeps_store_test_errors req e w) as Hk. by rewrite Hrun in Hk.
Qed.

(** X1.  Whatever the route, the request, the configuration and the draws,
    a request changes at most one collection and at most one record of it:
    either the whole store is as before, or one collection gained a last
    record, had the record at one position replaced, or lost the record at
    one position, every other collection being untouched. *)
Theorem serve_changes_at_most_one_record rt req e w :
  data_store (serve rt req e w).2 = data_store w ∨
  ∃ theme_id entity_type c c',
    collection_of w theme_id entity_type = Some c ∧
    collection_of (serve rt req e w).2 theme_id entity_type = Some c' ∧
    (∀ t' k', (t', k') ≠ (theme_id, entity_type) →
       collection_of (serve rt req e w).2 t' k' = collection_of w t' k') ∧
    ((∃ r, c' = (c ++ [r])%list) ∨
     (∃ i r, is_Some (c !! i) ∧ c' = <[i := r]> c ∧ length c' = length c) ∨
     (∃ i, is_Some (c !! i) ∧ c' = (take i c ++ drop (S i) c)%list ∧
           S (length c') = length c)).
Proof.
  destruct (store_step_of_serve rt req e w)
    as [Hsame | theme_id entity_type c c' Hc Hstep Hc' Hother]; [by left|].
  right. exists theme_id, entity_type, c, c'. do 3 (split; [done|]).
  destruct Hstep as [c fields _ _ | c i old fields entity_id created Hi _ _
                    | c i r Hi].
  - left. by eexists.
  - right. left. eexists i, _. split; [by eauto|]. split; [done|].
    apply length_insert.
  - right. right. exists i. split; [by eauto|]. split; [apply delete_take_drop|].
    rewrite length_delete by eauto. apply lookup_lt_Some in Hi. lia.
Qed.

(** ** Invariants of the reachable worlds *)

Lemma has_entity_true t k : has_entity t k = true ↔ k ∈ theme_entities t.
Proof. unfold has_entity. apply bool_decide_eq_true. Qed.

Lemma initial_collection theme_id entity_type :
  collection_of fresh_world theme_id entity_type
  = if route_valid (ListEntities theme_id entity_type) then Some [] else None.
Proof.
  unfold collection_of, fresh_world, route_valid, initial_store, THEMES.
  cbn [data_store foldl fst snd theme_entities route_theme route_entity_type assoc].
  unfold has_entity.
  rewrite !lookup_insert.
  repeat (case_decide; subst; cbn [mbind option_bind theme_entities]);
    repeat (case_bool_decide; try congruence);
    rewrite ?lookup_insert, ?lookup_empty;
    repeat (case_decide; subst; try done);
    try (rewrite ?lookup_empty; done);
    exfalso; cbn [theme_entities] in *;
    repeat match goal with
           | H : _ ∈ _ |- _ => rewrite !elem_of_cons, elem_of_nil in H
           | H : ¬ (_ ∈ _) |- _ => rewrite !elem_of_cons, elem_of_nil in H
           end; intuition congruence.
Qed.

Lemma collection_of_store w w' theme_id entity_type :
  data_store w' = data_store w →
  collection_of w' theme_id entity_type = collection_of w theme_id entity_type.
Proof. unfold collection_of. by intros ->. Qed.

Lemma seed_collection theme entity recs ds sl theme_id entity_type :
  is_Some (ds !! theme) →
  collection_of (World (seed theme entity recs ds) sl) theme_id entity_type
  = if bool_decide ((theme_id, entity_type) = (theme, entity)) then Some recs
    else collection_of (World ds sl) theme_id entity_type.
Proof.
  intros [by_type Hds]. unfold seed. rewrite Hds.
  case_bool_decide as Heq.
  - injection Heq as -> ->. apply collection_of_written.
  - by apply collection_of_other.
Qed.

Lemma collection_of_theme w theme_id entity_type c :
  collection_of w theme_id entity_type = Some c → is_Some (data_store w !! theme_id).
Proof. unfold collection_of. destruct (data_store w !! theme_id); by eauto. Qed.

Lemma store_shape_seed theme entity recs ds sl :
  route_valid (ListEntities theme entity) = true →
  store_shape (World ds sl) → store_shape (World (seed theme entity recs ds) sl).
Proof.
  intros Hvalid Hshape t k.
  assert (is_Some (ds !! theme)) as Hds.
  { apply Hshape in Hvalid as [c Hc]. by apply collection_of_theme in Hc. }
  rewrite seed_collection by done. case_bool_decide as Heq; [|apply Hshape].
  injection Heq as -> ->. split; [done | by eauto].
Qed.

Lemma records_complete_seed theme entity recs ds sl :
  is_Some (ds !! theme) →
  (∀ r, r ∈ recs → record_complete r) →
  records_complete (World ds sl) →
  records_complete (World (seed theme entity recs ds) sl).
Proof.
  intros Hds Hrecs Hall t k c r. rewrite seed_collection by done.
  case_bool_decide; [intros [= <-]; apply Hrecs | apply Hall].
Qed.

Lemma store_shape_fresh : store_shape fresh_world.
Proof.
  intros t k. rewrite initial_collection.
  destruct (route_valid (ListEntities t k)); split; try done.
Qed.

Lemma records_complete_fresh : records_complete fresh_world.
Proof.
  intros t k c r. rewrite initial_collection.
  destruct (route_valid (ListEntities t k)); [|done].
  intros [= <-] Hr. by apply elem_of_nil in Hr.
Qed.

Ltac seed_records_complete :=
  intros ? ?;
  repeat match goal with
         | H : _ ∈ _ :: _ |- _ => apply elem_of_cons in H as [->|H]
         | H : _ ∈ [] |- _ => by apply elem_of_nil in H
         end;
  intros key Hkey; unfold reserved_fields in Hkey;
  repeat match goal with
         | H : _ ∈ _ :: _ |- _ => apply elem_of_cons in H as [->|H]
         | H : _ ∈ [] |- _ => by apply elem_of_nil in H
         end;
  vm_compute; eauto.

Lemma seeded_invariants :
  store_shape (World (init_sample_data initial_store) []) ∧
  records_complete (World (init_sample_data initial_store) []).
Proof.
  pose proof store_shape_fresh as Hs. pose proof records_complete_fresh as Hr.
  unfold fresh_world in *. unfold init_sample_data.
  repeat match goal with
  | |- store_shape (World (seed ?t ?k ?recs ?ds) _) ∧ _ =>
      cut (store_shape (World ds []) ∧ records_complete (World ds []));
      [ intros [Hs' Hr']; split;
        [ apply store_shape_seed; [vm_compute; reflexivity | exact Hs']
        | apply records_complete_seed;
          [ assert (route_valid (ListEntities t k) = true) as Hv
              by (vm_compute; reflexivity);
            apply Hs' in Hv as [c Hc]; by apply collection_of_theme in Hc
          | seed_records_complete
          | exact Hr' ] ]
      | ]
  end.
  by split.
Qed.

Lemma store_shape_step t w w' :
  store_step t w w' → store_shape w → store_shape w'.
Proof.
  intros [Hsame | theme entity c c' Hc _ Hc' Hother] Hshape t' k'.
  - rewrite (collection_of_store w w') by done. apply Hshape.
  - destruct (decide ((t', k') = (theme, entity))) as [[= -> ->]|Hne].
    + rewrite Hc'. split; [intros _ | by eauto]. apply Hshape. by rewrite Hc.
    + rewrite Hother by done. apply Hshape.
Qed.

Lemma record_complete_created (fields : gmap string json) n t :
  is_Some (fields !! "name") → is_Some (fields !! "description") →
  record_complete (created_record fields n t).
Proof.
  intros Hn Hd key Hkey. unfold reserved_fields in Hkey. unfold created_record.
  rewrite !elem_of_cons, elem_of_nil in Hkey.
  destruct Hkey as [->|[->|[->|[->|[]]]]].
  - rewrite lookup_insert_ne by done. rewrite lookup_union.
    rewrite lookup_singleton_eq. by destruct (fields !! "id").
  - rewrite lookup_insert_ne by done. rewrite lookup_union.
    destruct Hn as [v ->]. by destruct ({["id" := _]} !! "name").
  - rewrite lookup_insert_ne by done. rewrite lookup_union.
    destruct Hd as [v ->]. by destruct ({["id" := _]} !! "description").
  - by rewrite lookup_insert_eq.
Qed.

Lemma record_complete_updated (old fields : gmap string json) entity_id created t :
  record_complete old →
  record_complete (updated_record old fields entity_id created t).
Proof.
  intros Hold key Hkey. specialize (Hold key Hkey) as [v Hv].
  unfold reserved_fields in Hkey. unfold updated_record.
  rewrite !elem_of_cons, elem_of_nil in Hkey.
  destruct Hkey as [->|[->|[->|[->|[]]]]].
  - by rewrite lookup_insert_ne, lookup_insert_ne, lookup_insert_eq.
  - rewrite !lookup_insert_ne by done. rewrite lookup_union, Hv.
    by destruct (fields !! "name").
  - rewrite !lookup_insert_ne by done. rewrite lookup_union, Hv.
    by destruct (fields !! "description").
  - by rewrite lookup_insert_ne, lookup_insert_eq.
Qed.

Lemma records_complete_step t w w' :
  store_step t w w' → records_complete w → records_complete w'.
Proof.
  intros [Hsame | theme entity c c' Hc Hstep Hc' Hother] Hall t' k' c0 r.
  - rewrite (collection_of_store w w') by done. apply Hall.
  - destruct (decide ((t', k') = (theme, entity))) as [[= -> ->]|Hne];
      [|rewrite Hother by done; apply Hall].
    rewrite Hc'. intros [= <-] Hr.
    assert (∀ r, r ∈ c → record_complete r) as Hold by (intros; by eapply Hall).
    destruct Hstep as [c fields Hn Hd | c i old fields entity_id created Hi Hid Hcr
                      | c i r0 Hi].
    + apply elem_of_app in Hr as [Hr | Hr%list_elem_of_singleton]; [by apply Hold|].
      subst r. by apply record_complete_created.
    + apply list_elem_of_lookup in Hr as [j Hj].
      destruct (decide (j = i)) as [->|Hji].
      * rewrite list_lookup_insert_eq in Hj by (by eapply lookup_lt_Some).
        injection Hj as <-. apply record_complete_updated, Hold.
        by eapply list_elem_of_lookup_2.
      * rewrite list_lookup_insert_ne in Hj by done.
        apply Hold. by eapply list_elem_of_lookup_2.
    + apply Hold. by eapply list_elem_of_delete_inv.
Qed.

Lemma reachable_well_formed w : reachable w → well_formed w.
Proof.
  induction 1 as [| |w rt req e Hw [IHs IHr]].
  - split; [apply store_shape_fresh | apply records_complete_fresh].
  - apply seeded_invariants.
  - pose proof (store_step_of_serve rt req e w) as Hstep. split.
    + by eapply store_shape_step.
    + by eapply records_complete_step.
Qed.

(** X2.  In every reachable world the store holds a collection for a
    (theme, entity type) exactly when the theme is one of [THEMES] and
    declares the entity type: no request creates or drops a collection. *)
Theorem reachable_store_shape w : reachable w → store_shape w.
Proof.
  induction 1 as [| |w rt req e Hw IH].
  - apply store_shape_fresh.
  - apply seeded_invariants.
  - eapply store_shape_step; [apply store_step_of_serve | done].
Qed.

Lemma reachable_store_shape_witness :
  is_Some (collection_of fresh_world "smart_city" "traffic_sensors") ↔
  route_valid (ListEntities "smart_city" "traffic_sensors") = true.
Proof.
  apply (reachable_store_shape fresh_world). apply reach_initial.
Defined.

(** X3.  In every reachable world every stored record has the keys [id],
    [name], [description] and [created_at]: the seed records have them, a
    create requires or writes them, and an update never drops a key. *)
Theorem reachable_records_complete w : reachable w → records_complete w.
Proof.
  induction 1 as [| |w rt req e Hw IH].
  - apply records_complete_fresh.
  - apply seeded_invariants.
  - eapply records_complete_step; [apply store_step_of_serve | done].
Qed.

Lemma reachable_records_complete_witness :
  length <$> collection_of one_item_world "fantasy_rpg" "items" = Some 1
  ∧ match collection_of one_item_world "fantasy_rpg" "items" with
    | Some c => Forall record_complete c
    | None => False
    end.
Proof.
  assert (length <$> collection_of one_item_world "fantasy_rpg" "items" = Some 1)
    as Hlen by (vm_compute; reflexivity).
  split; [exact Hlen|].
  pose proof (reachable_records_complete one_item_world) as Hall.
  destruct (collection_of one_item_world "fantasy_rpg" "items") as [c|] eqn:Hc;
    [|discriminate Hlen].
  apply Forall_forall. intros r Hr.
  eapply Hall; [|exact Hc|exact Hr].
  apply reachable_serve_all, reach_initial.
Defined.

(** ** No uncaught exception on well-formed input *)


Lemma well_formed_store w w' :
  data_store w' = data_store w → well_formed w → well_formed w'.
Proof.
  intros Hds [Hs Hr]. split.
  - intros t k. rewrite (collection_of_store w w') by done. apply Hs.
  - intros t k c r. rewrite (collection_of_store w w') by done. apply Hr.
Qed.

Lemma well_formed_collection w theme_id entity_type :
  well_formed w →
  route_valid (ListEntities theme_id entity_type) = true →
  ∃ c by_type,
    collection_of w theme_id entity_type = Some c ∧
    data_store w !! theme_id = Some by_type ∧
    get_collection theme_id entity_type w = (Return c, w) ∧
    ∀ r, r ∈ c → record_complete r.
Proof.
  intros [Hs Hr] Hvalid. apply Hs in Hvalid as [c Hc].
  destruct (collection_of_theme _ _ _ _ Hc) as [by_type Hds].
  exists c, by_type. split; [done|]. split; [done|]. split.
  - pose proof (get_collection_cases theme_id entity_type w) as H.
    by rewrite Hc in H.
  - intros r Hin. by eapply Hr.
Qed.


Lemma find_entity_complete c entity_id w :
  (∀ r, r ∈ c → record_complete r) →
  (∃ i r, find_entity c entity_id 0 w = (Return (Some (i, r)), w) ∧
          c !! i = Some r ∧ r !! "id" = Some (JStr entity_id) ∧
          ∀ m r', m < i → c !! m = Some r' → r' !! "id" ≠ Some (JStr entity_id)) ∨
  (find_entity c entity_id 0 w = (Return None, w) ∧
   ∀ r, r ∈ c → r !! "id" ≠ Some (JStr entity_id)).
Proof.
  intros Hc.
  destruct (find_entity_cases c entity_id 0 w)
    as [(n & r & Hf & Hn & Hid & Hmin) | [Hnone | Hf]].
  - left. exists n, r. repeat split; try done.
    intros m r' Hm Hr'. by eapply Hmin.
  - by right.
  - exfalso. eapply find_entity_no_key_error; [|done].
    intros r Hr. apply Hc; [done|]. unfold reserved_fields. by left.
Qed.







(** ** Bodies the create and update views refuse *)

Lemma truthy_mapping (fields : gmap string json) :
  fields ≠ ∅ → truthy (JObj fields) = true.
Proof. intros H. simpl. by rewrite bool_decide_eq_false_2. Qed.

(** X7.  On a valid route, a create whose body is a non-empty object that
    lacks a required field is answered 400 with the missing names after
    "Missing required fields: ", joined by ", " in the iteration order of
    the set of required fields: only "description" or only "name" when one
    is missing, both in either order when both are, and nothing is stored. *)
Theorem create_reports_missing_fields
    theme_id entity_type req e w (fields : gmap string json) :
  route_valid (CreateEntity theme_id entity_type) = true →
  body req = Some (JObj fields) → fields ≠ ∅ →
  let answer := respond (create_entity (theme_id, entity_type) req e) w in
  (is_Some (fields !! "name") → fields !! "description" = None →
     answer = (HttpError 400 "Missing required fields: description", w)) ∧
  (fields !! "name" = None → is_Some (fields !! "description") →
     answer = (HttpError 400 "Missing required fields: name", w)) ∧
  (fields !! "name" = None → fields !! "description" = None →
     answer = (HttpError 400
                 (if name_first e then "Missing required fields: name, description"
                  else "Missing required fields: description, name"), w)).
Proof.
  intros Hvalid Hbody Hne answer. subst answer.
  destruct (check_route_cases theme_id entity_type w) as [[_ Hc] | [Hc _]];
    [|unfold route_valid in *; simpl in *; congruence].
  unfold respond, create_entity, bind. rewrite Hc, Hbody.
  unfold require_body. rewrite truthy_mapping by done.
  change (ret (JObj fields) w) with (Return (JObj fields), w). cbn beta iota.
  assert (∀ v : json, bool_decide (is_Some (Some v)) = true) as Hsome
    by (intros; by apply bool_decide_eq_true_2).
  assert (bool_decide (is_Some (@None json)) = false) as Hnone
    by (apply bool_decide_eq_false_2; by intros [? ?]).
  unfold required_fields. repeat split.
  - intros [v Hn] Hd.
    destruct (name_first e); cbn [all_in not_in py_in]; unfold bind, ret;
      rewrite ?Hn, ?Hd, ?Hsome, ?Hnone; cbn beta iota;
      rewrite ?Hn, ?Hd, ?Hsome, ?Hnone; reflexivity.
  - intros Hn [v Hd].
    destruct (name_first e); cbn [all_in not_in py_in]; unfold bind, ret;
      rewrite ?Hn, ?Hd, ?Hsome, ?Hnone; cbn beta iota;
      rewrite ?Hn, ?Hd, ?Hsome, ?Hnone; reflexivity.
  - intros Hn Hd.
    destruct (name_first e); cbn [all_in not_in py_in]; unfold bind, ret;
      rewrite ?Hn, ?Hd, ?Hsome, ?Hnone; cbn beta iota;
      rewrite ?Hn, ?Hd, ?Hsome, ?Hnone; reflexivity.
Qed.

Lemma create_reports_missing_fields_witness :
  respond (create_entity ("smart_city", "traffic_sensors")
             (authorized (Some (JObj {["name" := JStr "Incomplete"]}))) (calm ""))
          fresh_world
  = (HttpError 400 "Missing required fields: description", fresh_world).
Proof.
  apply (create_reports_missing_fields "smart_city" "traffic_sensors"
           (authorized (Some (JObj {["name" := JStr "Incomplete"]}))) (calm "")
           fresh_world {["name" := JStr "Incomplete"]});
    [reflexivity | reflexivity | | by eexists | reflexivity].
  intros H. apply (f_equal (λ m : gmap string json, m !! "name")) in H.
  vm_compute in H. discriminate.
Defined.

Lemma sequence_body_scans fields_list d w :
  (∃ s, d = JStr s) ∨ (∃ l, d = JArr l) →
  (∃ b, all_in fields_list d w = (Return b, w)) ∧
  (∃ missing, not_in fields_list d w = (Return missing, w)).
Proof.
  intros Hd. split.
  - induction fields_list as [|f fs [b IH]]; [by eexists|].
    cbn [all_in]. unfold bind.
    destruct Hd as [[s ->] | [l ->]]; cbn [py_in]; unfold ret;
      match goal with |- context [if ?c then _ else _] => destruct c end;
      rewrite ?IH; by eexists.
  - induction fields_list as [|f fs [missing IH]]; [by eexists|].
    cbn [not_in]. unfold bind.
    destruct Hd as [[s ->] | [l ->]]; cbn [py_in]; unfold ret;
      rewrite IH; by eexists.
Qed.

(** X8.  In a reachable world and on a valid route, a create whose body is
    truthy JSON but not an object never stores anything: a number or [true]
    ends in an uncaught [TypeError] (at [field in data]); a string or a list
    ends in the 400 that lists missing fields, or, when [in] finds both
    required names in it, in an uncaught [TypeError] (at [**data]). *)
Theorem create_refuses_non_mapping_body theme_id entity_type req e w d :
  reachable w →
  route_valid (CreateEntity theme_id entity_type) = true →
  body req = Some d → truthy d = true → (∀ fields, d ≠ JObj fields) →
  let answer := respond (create_entity (theme_id, entity_type) req e) w in
  answer.2 = w ∧
  (answer.1 = ServerError TypeError ∨
   ∃ missing, answer.1 = HttpError 400 ("Missing required fields: " ++ missing)) ∧
  ((∀ s, d ≠ JStr s) → (∀ l, d ≠ JArr l) → answer.1 = ServerError TypeError).
Proof.
  intros Hw Hvalid Hbody Htruthy Hnot answer. subst answer.
  apply reachable_well_formed in Hw.
  destruct (check_route_cases theme_id entity_type w) as [[Hv Hc] | [Hc _]];
    [|unfold route_valid in *; simpl in *; congruence].
  unfold respond, create_entity, bind. rewrite Hc, Hbody.
  unfold require_body. rewrite Htruthy.
  change (ret d w) with (Return d, w). cbn beta iota.
  assert (required_fields e ≠ []) as Hreq
    by (unfold required_fields; by destruct (name_first e)).
  destruct d as [|b|z|q|s|l|fields]; try discriminate Htruthy;
    try (by destruct (Hnot fields)).
  - destruct (required_fields e) as [|f fs]; [done|]. cbn [all_in py_in].
    unfold bind, raise. cbn. split; [done|]. split; [by left | done].
  - destruct (required_fields e) as [|f fs]; [done|]. cbn [all_in py_in].
    unfold bind, raise. cbn. split; [done|]. split; [by left | done].
  - destruct (required_fields e) as [|f fs]; [done|]. cbn [all_in py_in].
    unfold bind, raise. cbn. split; [done|]. split; [by left | done].
  - destruct (sequence_body_scans (required_fields e) (JStr s) w) as [[b ->] [m Hm]];
      [by left; eexists|].
    destruct b.
    + change (ret () w) with (Return (), w). cbn beta iota.
      destruct (well_formed_collection w theme_id entity_type Hw Hv)
        as (c & bt & _ & _ & -> & _).
      cbn. split; [done|]. split; [by left|]. intros H. by destruct (H s).
    + rewrite Hm. cbn. split; [done|]. split; [right; by eexists|].
      intros H. by destruct (H s).
  - destruct (sequence_body_scans (required_fields e) (JArr l) w) as [[b ->] [m Hm]];
      [by right; eexists|].
    destruct b.
    + change (ret () w) with (Return (), w). cbn beta iota.
      destruct (well_formed_collection w theme_id entity_type Hw Hv)
        as (c & bt & _ & _ & -> & _).
      cbn. split; [done|]. split; [by left|]. intros _ H. by destruct (H l).
    + rewrite Hm. cbn. split; [done|]. split; [right; by eexists|].
      intros _ H. by destruct (H l).
Qed.

Lemma create_refuses_non_mapping_body_witness :
  (respond (create_entity ("fantasy_rpg", "items")
              (authorized (Some (JInt 7))) (calm "")) fresh_world).1
  = ServerError TypeError.
Proof.
  apply (create_refuses_non_mapping_body "fantasy_rpg" "items"
           (authorized (Some (JInt 7))) (calm "") fresh_world (JInt 7));
    try done.
  apply reach_initial.
Defined.

(** X9.  In a reachable world and on a valid route, an update whose body is
    truthy JSON but not an object changes nothing: it is answered 404 when no
    record has the id, and ends in an uncaught [TypeError] (at [**data]) when
    one has. *)
Theorem update_refuses_non_mapping_body
    theme_id entity_type entity_id req e w d :
  reachable w →
  route_valid (UpdateEntity theme_id entity_type entity_id) = true →
  body req = Some d → truthy d = true → (∀ fields, d ≠ JObj fields) →
  ∃ c, collection_of w theme_id entity_type = Some c ∧
    ((∃ r, r ∈ c ∧ r !! "id" = Some (JStr entity_id)) →
       respond (update_entity (theme_id, entity_type, entity_id) req e) w
       = (ServerError TypeError, w)) ∧
    ((∀ r, r ∈ c → r !! "id" ≠ Some (JStr entity_id)) →
       respond (update_entity (theme_id, entity_type, entity_id) req e) w
       = (HttpError 404 ("Entity with ID '" ++ entity_id ++ "' not found"), w)).
Proof.
  intros Hw Hvalid Hbody Htruthy Hnot.
  apply reachable_well_formed in Hw.
  destruct (check_route_cases theme_id entity_type w) as [[Hv Hc] | [Hc _]];
    [|unfold route_valid in *; simpl in *; congruence].
  destruct (well_formed_collection w theme_id entity_type Hw Hv)
    as (c & bt & Hcoll & _ & Hg & Hcomplete).
  exists c. split; [done|].
  unfold respond, update_entity, bind. rewrite Hc, Hbody.
  unfold require_body. rewrite Htruthy.
  change (ret d w) with (Return d, w). cbn beta iota. rewrite Hg.
  destruct (find_entity_complete c entity_id w Hcomplete)
    as [(i & r & -> & Hi & Hid & _) | [-> Hnone]].
  - split.
    + intros _. destruct d; try done. by destruct (Hnot m).
    + intros H. exfalso. apply (H r); [by eapply list_elem_of_lookup_2 | done].
  - split; [|done].
    intros (r & Hr & Hid). by destruct (Hnone r Hr).
Qed.

Lemma update_refuses_non_mapping_body_witness :
  ∃ c, collection_of one_item_world "fantasy_rpg" "items" = Some c ∧
    ((∃ r, r ∈ c ∧ r !! "id" = Some (JStr "1")) →
       respond (update_entity ("fantasy_rpg", "items", "1")
                  (authorized (Some (JStr "Z"))) (calm "")) one_item_world
       = (ServerError TypeError, one_item_world)) ∧
    ((∀ r, r ∈ c → r !! "id" ≠ Some (JStr "1")) →
       respond (update_entity ("fantasy_rpg", "items", "1")
                  (authorized (Some (JStr "Z"))) (calm "")) one_item_world
       = (HttpError 404 "Entity with ID '1' not found", one_item_world)).
Proof.
  apply (update_refuses_non_mapping_body "fantasy_rpg" "items" "1"
           (authorized (Some (JStr "Z"))) (calm "") one_item_world (JStr "Z"));
    try done.
  apply reachable_serve_all, reach_initial.
Defined.

(** ** Reading back what was written *)

(** The scan returns the first record with the id, when the records before
    it have an id. *)
Lemma find_entity_first c entity_id i w n (r : gmap string json) :
  c !! n = Some r →
  r !! "id" = Some (JStr entity_id) →
  (∀ m r', m < n → c !! m = Some r' →
           is_Some (r' !! "id") ∧ r' !! "id" ≠ Some (JStr entity_id)) →
  find_entity c entity_id i w = (Return (Some (i + n, r)), w).
Proof.
  revert i n. induction c as [|r0 c IH]; intros i n Hn Hid Hmin; [done|].
  cbn [find_entity]. unfold bind, getitem.
  destruct n as [|n].
  - injection Hn as ->. rewrite Hid.
    change (ret (JStr entity_id) w) with (Return (JStr entity_id), w).
    cbn beta iota. rewrite (proj2 (eq_str_true _ _) eq_refl).
    by rewrite Nat.add_0_r.
  - destruct (Hmin 0 r0) as [[v Hv] Hne]; [lia | done |].
    rewrite Hv. change (ret v w) with (Return v, w). cbn beta iota.
    destruct (eq_str v entity_id) eqn:E.
    { apply eq_str_true in E. congruence. }
    rewrite (IH (S i) n); [by rewrite Nat.add_succ_r | done | done |].
    intros m r' Hm Hr'. apply (Hmin (S m)); [lia | done].
Qed.

Lemma get_entity_return theme_id entity_type entity_id req e w r w' :
  get_entity (theme_id, entity_type, entity_id) req e w = (Return r, w') →
  w' = w ∧
  ∃ c i (found : gmap string json),
    collection_of w theme_id entity_type = Some c ∧
    c !! i = Some found ∧
    found !! "id" = Some (JStr entity_id) ∧
    (∀ m r', m < i → c !! m = Some r' →
             is_Some (r' !! "id") ∧ r' !! "id" ≠ Some (JStr entity_id)) ∧
    r = Jsonify 200 (JObj found).
Proof.
  unfold get_entity, bind.
  destruct (check_route_cases theme_id entity_type w) as [[_ ->] | [_ [d ->]]];
    [|done].
  pose proof (get_collection_cases theme_id entity_type w) as Hc.
  destruct (collection_of w theme_id entity_type) as [c|] eqn:Hcoll;
    [rewrite Hc | by destruct Hc as [k ->]].
  destruct (find_entity_cases c entity_id 0 w)
    as [(i & found & -> & Hi & Hid & Hmin) | [[-> _] | ->]]; [|done..].
  cbn [Nat.add]. intros [= <- <-]. split; [done|].
  by exists c, i, found.
Qed.

(** The get view, given the first record with the id. *)
Lemma serve_get_first theme_id entity_type entity_id req e w c i
    (found : gmap string json) :
  route_valid (GetEntity theme_id entity_type entity_id) = true →
  token req = Some API_TOKEN →
  (draw_gate e <? error_rate (cfg e))%float = false →
  collection_of w theme_id entity_type = Some c →
  c !! i = Some found →
  found !! "id" = Some (JStr entity_id) →
  (∀ m r', m < i → c !! m = Some r' →
           is_Some (r' !! "id") ∧ r' !! "id" ≠ Some (JStr entity_id)) →
  serve (GetEntity theme_id entity_type entity_id) req e w
  = (Json 200 (JObj found), w).
Proof.
  intros Hvalid Htok Hgate Hcoll Hi Hid Hmin.
  destruct (serve_entity_route (GetEntity theme_id entity_type entity_id)
              req e w eq_refl) as (_ & _ & ->); [|done].
  cbn [guarded_view]. unfold respond.
  rewrite simulate_errors_pass by done.
  unfold get_entity, bind.
  destruct (check_route_cases theme_id entity_type w) as [[_ ->] | [Hbad _]];
    [|unfold route_valid in *; simpl in *; congruence].
  pose proof (get_collection_cases theme_id entity_type w) as Hc.
  rewrite Hcoll in Hc. rewrite Hc.
  by rewrite (find_entity_first c entity_id 0 w i found).
Qed.

Lemma route_valid_of_collection w theme_id entity_type c :
  store_shape w →
  collection_of w theme_id entity_type = Some c →
  route_valid (ListEntities theme_id entity_type) = true.
Proof. intros Hs Hc. apply Hs. by rewrite Hc. Qed.

(** X10.  A get that succeeds is answered 200 with the first record of the
    collection whose [id] is the string of the route, every record before it
    carrying another id, and changes nothing in the store. *)
Theorem get_returns_first_match
    theme_id entity_type entity_id req e w status payload w' :
  serve (GetEntity theme_id entity_type entity_id) req e w
  = (Json status payload, w') →
  status = 200 ∧ data_store w' = data_store w ∧
  ∃ c i (found : gmap string json),
    collection_of w theme_id entity_type = Some c ∧
    c !! i = Some found ∧
    payload = JObj found ∧
    found !! "id" = Some (JStr entity_id) ∧
    ∀ m r', m < i → c !! m = Some r' → r' !! "id" ≠ Some (JStr entity_id).
Proof.
  intros Hserve. apply serve_json in Hserve. cbn [registered_view] in Hserve.
  apply decorated_return in Hserve as (_ & w1 & Hw1 & Hrun).
  apply get_entity_return in Hrun
    as (-> & c & i & found & Hc & Hi & Hid & Hmin & Hr).
  injection Hr as -> ->. split; [done|]. split; [done|].
  exists c, i, found. split; [by rewrite <- (collection_of_store w w1)|].
  repeat split; try done. intros m r' Hm Hr'. by eapply Hmin.
Qed.

Lemma get_returns_first_match_witness :
  status_code (serve (GetEntity "fantasy_rpg" "items" "1") (authorized None)
                 (calm "") one_item_world).1 = 200.
Proof.
  destruct (get_returns_first_match "fantasy_rpg" "items" "1" (authorized None)
              (calm "") one_item_world
              (status_code (serve (GetEntity "fantasy_rpg" "items" "1")
                              (authorized None) (calm "") one_item_world).1)
              (payload_of (serve (GetEntity "fantasy_rpg" "items" "1")
                             (authorized None) (calm "") one_item_world).1)
              (serve (GetEntity "fantasy_rpg" "items" "1")
                 (authorized None) (calm "") one_item_world).2) as [Hs _].
  { vm_compute. reflexivity. }
  exact Hs.
Defined.

(** X11.  Reading back an update: in a reachable world, after a successful
    update of an id, a get of the same id (valid token, no fault) is
    answered 200 with exactly the record the update returned. *)
Theorem get_after_update_returns_the_update
    theme_id entity_type entity_id req e w payload w' req' e' :
  reachable w →
  serve (UpdateEntity theme_id entity_type entity_id) req e w
  = (Json 200 payload, w') →
  token req' = Some API_TOKEN →
  (draw_gate e' <? error_rate (cfg e'))%float = false →
  serve (GetEntity theme_id entity_type entity_id) req' e' w'
  = (Json 200 payload, w').
Proof.
  intros Hw Hserve Htok Hgate. apply reachable_well_formed in Hw.
  apply serve_json in Hserve. cbn [registered_view] in Hserve.
  apply decorated_return in Hserve as (_ & w1 & Hw1 & Hrun).
  assert (well_formed w1) as Hwf1 by (by eapply well_formed_store).
  apply update_entity_return in Hrun
    as (c & i & old & fields & created & by_type
        & Hc & Hds & Hb & Hi & Hid & Hmin & Hcr & Hr & ->).
  injection Hr as ->.
  apply (serve_get_first _ _ _ _ _ _
           (<[i := updated_record old fields entity_id created (now e)]> c) i).
  - eapply route_valid_of_collection; [apply Hwf1 | done].
  - done.
  - done.
  - apply collection_of_written.
  - apply list_lookup_insert_eq. by eapply lookup_lt_Some.
  - unfold updated_record.
    by rewrite lookup_insert_ne, lookup_insert_ne, lookup_insert_eq.
  - intros m r' Hm Hr'. rewrite list_lookup_insert_ne in Hr' by lia.
    split; [|by eapply Hmin].
    destruct Hwf1 as [_ Hcomplete]. apply (Hcomplete _ _ c r' Hc).
    + by eapply list_elem_of_lookup_2.
    + unfold reserved_fields. set_solver.
Qed.

Lemma get_after_update_returns_the_update_witness :
  serve (GetEntity "fantasy_rpg" "items" "1") (authorized None) (calm "")
    (serve (UpdateEntity "fantasy_rpg" "items" "1")
       (authorized (Some body_rename)) (calm "2024-01-01 11:00:00")
       one_item_world).2
  = (Json 200
       (payload_of (serve (UpdateEntity "fantasy_rpg" "items" "1")
                      (authorized (Some body_rename)) (calm "2024-01-01 11:00:00")
                      one_item_world).1),
     (serve (UpdateEntity "fantasy_rpg" "items" "1")
        (authorized (Some body_rename)) (calm "2024-01-01 11:00:00")
        one_item_world).2).
Proof.
  apply (get_after_update_returns_the_update "fantasy_rpg" "items" "1"
           (authorized (Some body_rename)) (calm "2024-01-01 11:00:00")
           one_item_world).
  - apply reachable_serve_all, reach_initial.
  - vm_compute. reflexivity.
  - reflexivity.
  - reflexivity.
Defined.

(** X12.  Reading back a create: in a reachable world, after a successful
    create whose record carries the string [entity_id] as its id, a get of
    that id (valid token, no fault) is answered 200 with the created record,
    provided no record of the collection already had that id. *)
Theorem get_after_create_returns_the_record
    theme_id entity_type entity_id req e w status (created : gmap string json)
    w' req' e' :
  reachable w →
  serve (CreateEntity theme_id entity_type) req e w
  = (Json status (JObj created), w') →
  created !! "id" = Some (JStr entity_id) →
  (∀ c r, collection_of w theme_id entity_type = Some c → r ∈ c →
          r !! "id" ≠ Some (JStr entity_id)) →
  token req' = Some API_TOKEN →
  (draw_gate e' <? error_rate (cfg e'))%float = false →
  serve (GetEntity theme_id entity_type entity_id) req' e' w'
  = (Json 200 (JObj created), w').
Proof.
  intros Hw Hserve Hid Hfresh Htok Hgate. apply reachable_well_formed in Hw.
  apply serve_json in Hserve. cbn [registered_view] in Hserve.
  apply decorated_return in Hserve as (_ & w1 & Hw1 & Hrun).
  assert (well_formed w1) as Hwf1 by (by eapply well_formed_store).
  apply create_entity_return in Hrun
    as (c & fields & by_type & Hc & Hds & Hb & Hn & Hd & Hr & ->).
  injection Hr as -> ->.
  apply (serve_get_first _ _ _ _ _ _
           (c ++ [created_record fields (length c) (now e)]) (length c)).
  - eapply route_valid_of_collection; [apply Hwf1 | done].
  - done.
  - done.
  - apply collection_of_written.
  - by rewrite lookup_app_r, Nat.sub_diag.
  - done.
  - intros m r' Hm Hr'. rewrite lookup_app_l in Hr' by done.
    assert (r' ∈ c) as Hin by (by eapply list_elem_of_lookup_2).
    split.
    + destruct Hwf1 as [_ Hcomplete]. apply (Hcomplete _ _ c r' Hc Hin).
      unfold reserved_fields. set_solver.
    + apply (Hfresh c); [by rewrite <- (collection_of_store w w1) | done].
Qed.

Lemma get_after_create_returns_the_record_witness :
  serve (GetEntity "fantasy_rpg" "items" "1") (authorized None) (calm "")
    (serve (CreateEntity "fantasy_rpg" "items")
       (authorized (Some body_xy)) (calm "2024-01-01 10:00:00") fresh_world).2
  = (Json 200
       (JObj (object_of
                (payload_of (serve (CreateEntity "fantasy_rpg" "items")
                               (authorized (Some body_xy))
                               (calm "2024-01-01 10:00:00") fresh_world).1))),
     (serve (CreateEntity "fantasy_rpg" "items")
        (authorized (Some body_xy)) (calm "2024-01-01 10:00:00") fresh_world).2).
Proof.
  apply (get_after_create_returns_the_record "fantasy_rpg" "items" "1"
           (authorized (Some body_xy)) (calm "2024-01-01 10:00:00") fresh_world 201).
  - apply reach_initial.
  - vm_compute. reflexivity.
  - vm_compute. reflexivity.
  - intros c r Hc Hr.
    assert (collection_of fresh_world "fantasy_rpg" "items" = Some []) as H0
      by (vm_compute; reflexivity).
    rewrite H0 in Hc. injection Hc as <-. inversion Hr.
  - reflexivity.
  - reflexivity.
Defined.

(** X13.  A create never hides a record: in a reachable world, if a get of
    an id succeeds, then after any successful create on the same collection
    the same get (valid token, no fault) is answered with the same record,
    even when the new record carries the same id. *)
Theorem create_keeps_earlier_records_readable
    theme_id entity_type entity_id req0 e0 w0' found req e w status payload w'
    req' e' :
  serve (GetEntity theme_id entity_type entity_id) req0 e0 w
  = (Json 200 found, w0') →
  serve (CreateEntity theme_id entity_type) req e w = (Json status payload, w') →
  token req' = Some API_TOKEN →
  (draw_gate e' <? error_rate (cfg e'))%float = false →
  serve (GetEntity theme_id entity_type entity_id) req' e' w'
  = (Json 200 found, w').
Proof.
  intros Hget Hserve Htok Hgate.
  apply serve_json in Hget. cbn [registered_view] in Hget.
  apply decorated_return in Hget as (_ & w0 & Hw0 & Hget).
  assert (route_valid (GetEntity theme_id entity_type entity_id) = true) as Hvalid.
  { unfold get_entity, bind in Hget.
    destruct (check_route_cases theme_id entity_type w0) as [[Hv _] | [_ [d Hd]]];
      [done | by rewrite Hd in Hget]. }
  apply get_entity_return in Hget
    as (_ & c0 & i & r & Hc0 & Hi & Hid & Hmin & Hr).
  injection Hr as ->.
  rewrite (collection_of_store w w0) in Hc0 by done.
  apply serve_json in Hserve. cbn [registered_view] in Hserve.
  apply decorated_return in Hserve as (_ & w1 & Hw1 & Hrun).
  apply create_entity_return in Hrun
    as (c & fields & by_type & Hc & Hds & Hb & Hn & Hd & _ & ->).
  rewrite (collection_of_store w w1) in Hc by done.
  assert (c = c0) as -> by congruence.
  apply (serve_get_first _ _ _ _ _ _
           (c0 ++ [created_record fields (length c0) (now e)]) i);
    try done.
  - apply collection_of_written.
  - rewrite lookup_app_l; [done | by eapply lookup_lt_Some].
  - intros m r' Hm Hr'. apply lookup_lt_Some in Hi.
    rewrite lookup_app_l in Hr' by lia. by eapply Hmin.
Qed.

Lemma create_keeps_earlier_records_readable_witness :
  serve (GetEntity "fantasy_rpg" "items" "1") (authorized None) (calm "")
    (serve (CreateEntity "fantasy_rpg" "items")
       (authorized (Some body_xy_id99)) (calm "") one_item_world).2
  = (Json 200
       (payload_of (serve (GetEntity "fantasy_rpg" "items" "1")
                      (authorized None) (calm "") one_item_world).1),
     (serve (CreateEntity "fantasy_rpg" "items")
        (authorized (Some body_xy_id99)) (calm "") one_item_world).2).
Proof.
  apply (create_keeps_earlier_records_readable "fantasy_rpg" "items" "1"
           (authorized None) (calm "")
           (serve (GetEntity "fantasy_rpg" "items" "1")
              (authorized None) (calm "") one_item_world).2
           _ (authorized (Some body_xy_id99)) (calm "") one_item_world
           201
           (payload_of (serve (CreateEntity "fantasy_rpg" "items")
                          (authorized (Some body_xy_id99)) (calm "")
                          one_item_world).1)).
  - vm_compute. reflexivity.
  - vm_compute. reflexivity.
  - reflexivity.
  - reflexivity.
Defined.

(** ** Ids and creation times across requests *)

Lemma column_insert key (c : list (gmap string json)) i (r old : gmap string json) :
  c !! i = Some old → r !! key = old !! key →
  column key (<[i := r]> c) = column key c.
Proof.
  intros Hi Hkey. unfold column. rewrite list_fmap_insert. simpl.
  apply list_insert_id. rewrite list_lookup_fmap, Hi. simpl. by rewrite Hkey.
Qed.

(** X14.  A successful update changes no [id] and no [created_at] of the
    collection, whatever the body carries under these keys: the collection
    has the same length, the same ids and the same creation times, position
    by position, before and after. *)
Theorem update_preserves_ids_and_creation_times
    theme_id entity_type entity_id req e w status payload w' :
  serve (UpdateEntity theme_id entity_type entity_id) req e w
  = (Json status payload, w') →
  ∃ c c',
    collection_of w theme_id entity_type = Some c ∧
    collection_of w' theme_id entity_type = Some c' ∧
    length c' = length c ∧
    column "id" c' = column "id" c ∧
    column "created_at" c' = column "created_at" c.
Proof.
  intros Hserve. apply serve_json in Hserve. cbn [registered_view] in Hserve.
  apply decorated_return in Hserve as (_ & w1 & Hw1 & Hrun).
  apply update_entity_return in Hrun
    as (c & i & old & fields & created & by_type
        & Hc & Hds & Hb & Hi & Hid & _ & Hcr & _ & ->).
  eexists c, _. split; [by rewrite <- (collection_of_store w w1)|].
  split; [apply collection_of_written|].
  split; [apply length_insert|].
  split.
  - apply (column_insert _ _ _ _ old); [done|].
    by rewrite lookup_insert_ne, lookup_insert_ne, lookup_insert_eq.
  - apply (column_insert _ _ _ _ old); [done|].
    by rewrite lookup_insert_ne, lookup_insert_eq.
Qed.

Lemma update_preserves_ids_and_creation_times_witness :
  ∃ c c',
    collection_of one_item_world "fantasy_rpg" "items" = Some c ∧
    collection_of
      (serve (UpdateEntity "fantasy_rpg" "items" "1")
         (authorized (Some body_rename)) (calm "2024-01-01 11:00:00")
         one_item_world).2 "fantasy_rpg" "items" = Some c' ∧
    length c' = length c ∧
    column "id" c' = column "id" c ∧
    column "created_at" c' = column "created_at" c.
Proof.
  apply (update_preserves_ids_and_creation_times "fantasy_rpg" "items" "1"
           (authorized (Some body_rename)) (calm "2024-01-01 11:00:00")
           one_item_world 200
           (payload_of (serve (UpdateEntity "fantasy_rpg" "items" "1")
                          (authorized (Some body_rename))
                          (calm "2024-01-01 11:00:00") one_item_world).1)).
  vm_compute. reflexivity.
Defined.

Lemma counted_ids_succ n :
  counted_ids (S n) = (counted_ids n ++ [Some (JStr (pretty (n + 1)%nat))])%list.
Proof. unfold counted_ids. by rewrite seq_S, fmap_app. Qed.

Lemma counted_ids_NoDup n : NoDup (counted_ids n).
Proof.
  unfold counted_ids. apply NoDup_fmap_2; [|apply NoDup_seq].
  intros i j [= Hij]. apply (inj pretty) in Hij. lia.
Qed.

(** X15.  When the ids of a collection are "1", ..., "n" in order, a
    successful create whose body carries no [id] leaves them "1", ..., "n+1"
    in order, hence pairwise different: ids only collide after a delete or
    through an id supplied in a body. *)
Theorem create_continues_the_count
    theme_id entity_type req e w status payload w' c :
  serve (CreateEntity theme_id entity_type) req e w = (Json status payload, w') →
  collection_of w theme_id entity_type = Some c →
  column "id" c = counted_ids (length c) →
  (∀ fields : gmap string json,
     body req = Some (JObj fields) → fields !! "id" = None) →
  ∃ c', collection_of w' theme_id entity_type = Some c' ∧
        length c' = S (length c) ∧
        column "id" c' = counted_ids (length c') ∧
        NoDup (column "id" c').
Proof.
  intros Hserve Hcoll Hcount Hnoid.
  apply serve_json in Hserve. cbn [registered_view] in Hserve.
  apply decorated_return in Hserve as (_ & w1 & Hw1 & Hrun).
  apply create_entity_return in Hrun
    as (c0 & fields & by_type & Hc & Hds & Hb & _ & _ & _ & ->).
  rewrite (collection_of_store w w1) in Hc by done.
  assert (c0 = c) as -> by congruence.
  eexists. split; [apply collection_of_written|].
  assert (column "id" (c ++ [<["created_at" := JStr (now e)]>
                              (fields ∪ {["id" := JStr (pretty (length c + 1)%nat)]})])
          = counted_ids (S (length c))) as Hcol.
  { unfold column in *. rewrite fmap_app, Hcount, counted_ids_succ. f_equal.
    simpl. rewrite lookup_insert_ne by done. rewrite lookup_union.
    by rewrite (Hnoid fields Hb), lookup_singleton_eq. }
  split; [rewrite length_app; simpl; lia|].
  split.
  - rewrite Hcol. f_equal. rewrite length_app. simpl. lia.
  - rewrite Hcol. apply counted_ids_NoDup.
Qed.

Lemma create_continues_the_count_witness :
  ∃ c', collection_of
          (serve (CreateEntity "fantasy_rpg" "items") (authorized (Some body_xy))
             (calm "2024-01-01 10:00:00") fresh_world).2
          "fantasy_rpg" "items" = Some c' ∧
        length c' = 1 ∧
        column "id" c' = counted_ids (length c') ∧
        NoDup (column "id" c').
Proof.
  apply (create_continues_the_count "fantasy_rpg" "items"
           (authorized (Some body_xy)) (calm "2024-01-01 10:00:00") fresh_world
           201
           (payload_of (serve (CreateEntity "fantasy_rpg" "items")
                          (authorized (Some body_xy))
                          (calm "2024-01-01 10:00:00") fresh_world).1)
           _ []).
  - vm_compute. reflexivity.
  - vm_compute. reflexivity.
  - reflexivity.
  - intros fields [= <-]. vm_compute. reflexivity.
Defined.

(** ** Listing *)

(** X16.  After a successful create, a list of the same collection (valid
    token, no fault) is answered 200 with the theme, the entity type and, as
    items, the records that were there in their order followed by the
    record the create returned. *)
Theorem list_after_create_ends_with_the_record
    theme_id entity_type req e w status payload w' req' e' :
  serve (CreateEntity theme_id entity_type) req e w = (Json status payload, w') →
  token req' = Some API_TOKEN →
  (draw_gate e' <? error_rate (cfg e'))%float = false →
  ∃ c, collection_of w theme_id entity_type = Some c ∧
    serve (ListEntities theme_id entity_type) req' e' w'
    = (Json 200 (JObj (<["theme" := JStr theme_id]>
                      (<["entity_type" := JStr entity_type]>
                      (<["items" := JArr ((JObj <$> c) ++ [payload])%list]> ∅)))), w').
Proof.
  intros Hserve Htok Hgate.
  apply serve_json in Hserve. cbn [registered_view] in Hserve.
  apply decorated_return in Hserve as (_ & w1 & Hw1 & Hrun).
  assert (route_valid (ListEntities theme_id entity_type) = true) as Hvalid.
  { unfold create_entity, bind in Hrun.
    destruct (check_route_cases theme_id entity_type w1) as [[Hv _] | [_ [d Hd]]];
      [done | by rewrite Hd in Hrun]. }
  apply create_entity_return in Hrun
    as (c & fields & by_type & Hc & Hds & Hb & _ & _ & Hr & ->).
  injection Hr as -> ->.
  exists c. split; [by rewrite <- (collection_of_store w w1)|].
  match goal with
  | |- serve _ _ _ ?w2 = _ =>
      destruct (serve_entity_route (ListEntities theme_id entity_type)
                  req' e' w2 eq_refl) as (_ & _ & ->); [|done]
  end.
  cbn [guarded_view]. unfold respond.
  rewrite simulate_errors_pass by done.
  unfold list_entities, bind.
  match goal with
  | |- context [check_route theme_id entity_type ?w2] =>
      destruct (check_route_cases theme_id entity_type w2) as [[_ ->] | [Hbad _]];
        [|congruence];
      pose proof (get_collection_cases theme_id entity_type w2) as Hg
  end.
  rewrite collection_of_written in Hg. rewrite Hg.
  cbn. by rewrite fmap_app.
Qed.

Lemma list_after_create_ends_with_the_record_witness :
  ∃ c, collection_of one_item_world "fantasy_rpg" "items" = Some c ∧
    serve (ListEntities "fantasy_rpg" "items") (authorized None) (calm "")
      (serve (CreateEntity "fantasy_rpg" "items") (authorized (Some body_xy))
         (calm "2024-01-01 10:00:01") one_item_world).2
    = (Json 200
         (JObj (<["theme" := JStr "fantasy_rpg"]>
               (<["entity_type" := JStr "items"]>
               (<["items" :=
                  JArr ((JObj <$> c) ++
                        [payload_of
                           (serve (CreateEntity "fantasy_rpg" "items")
                              (authorized (Some body_xy))
                              (calm "2024-01-01 10:00:01") one_item_world).1])]>
                ∅)))),
       (serve (CreateEntity "fantasy_rpg" "items") (authorized (Some body_xy))
          (calm "2024-01-01 10:00:01") one_item_world).2).
Proof.
  apply (list_after_create_ends_with_the_record "fantasy_rpg" "items"
           (authorized (Some body_xy)) (calm "2024-01-01 10:00:01")
           one_item_world 201).
  - vm_compute. reflexivity.
  - reflexivity.
  - reflexivity.
Defined.

(** ** The theme views *)

Lemma entity_counts_cases theme_id entities w :
  (∀ entity, entity ∈ entities →
             is_Some (collection_of w theme_id entity)) →
  ∃ counts,
    entity_counts theme_id entities w = (Return counts, w) ∧
    Forall2 (λ entity j,
               ∃ c, collection_of w theme_id entity = Some c ∧
                    j = JObj (<["type" := JStr entity]>
                             (<["count" := JInt (Z.of_nat (length c))]> ∅)))
            entities counts.
Proof.
  induction entities as [|entity rest IH]; intros Hall.
  - exists []. split; [done | constructor].
  - destruct (Hall entity) as [c Hc]; [by left|].
    destruct IH as (counts & Hrun & Hcounts); [intros k Hk; apply Hall; by right|].
    eexists. cbn [entity_counts]. unfold bind.
    pose proof (get_collection_cases theme_id entity w) as Hg.
    rewrite Hc in Hg. rewrite Hg, Hrun. split; [reflexivity|].
    constructor; [by exists c | done].
Qed.

Lemma declared_collections w theme_id t :
  store_shape w → assoc theme_id THEMES = Some t →
  ∀ entity, entity ∈ theme_entities t →
            is_Some (collection_of w theme_id entity).
Proof.
  intros Hs Ht entity Hin. apply Hs. unfold route_valid.
  cbn [route_theme route_entity_type]. rewrite Ht. by apply has_entity_true.
Qed.

(** X17.  [GET /themes/<theme_id>] needs no token and draws no fault.  In a
    reachable world it never changes the world; an unknown theme is answered
    404; a known theme is answered 200 with its id, name and description
    and, under [entities], one object per declared entity type, in order,
    whose [count] is the current length of that collection (the list of
    names that [**THEMES[theme_id]] brings under the same key is
    replaced). *)
Theorem get_theme_reports_collection_sizes theme_id req e w :
  reachable w →
  match assoc theme_id THEMES with
  | None =>
      respond (get_theme theme_id req e) w
      = (HttpError 404 ("Theme '" ++ theme_id ++ "' not found"), w)
  | Some t =>
      ∃ counts,
        respond (get_theme theme_id req e) w
        = (Json 200 (JObj (<["entities" := JArr counts]>
                          (<["description" := JStr (theme_description t)]>
                          (<["name" := JStr (theme_name t)]>
                          (<["id" := JStr theme_id]> ∅))))), w) ∧
        Forall2 (λ entity j,
                   ∃ c, collection_of w theme_id entity = Some c ∧
                        j = JObj (<["type" := JStr entity]>
                                 (<["count" := JInt (Z.of_nat (length c))]> ∅)))
                (theme_entities t) counts
  end.
Proof.
  intros Hw. apply reachable_well_formed in Hw as [Hs _].
  unfold respond, get_theme.
  destruct (assoc theme_id THEMES) as [t|] eqn:Ht; [|done].
  destruct (entity_counts_cases theme_id (theme_entities t) w)
    as (counts & Hrun & Hcounts); [by eapply declared_collections|].
  exists counts. split; [|done].
  unfold bind. rewrite Hrun. cbn. by rewrite insert_insert_eq.
Qed.

Lemma get_theme_reports_collection_sizes_witness :
  field_of (payload_of (respond (get_theme "fantasy_rpg" anonymous (calm ""))
                          one_item_world).1) "entities"
  = Some (JArr [ JObj (mk_record [("type", JStr "characters"); ("count", JInt 0)]);
                 JObj (mk_record [("type", JStr "quests"); ("count", JInt 0)]);
                 JObj (mk_record [("type", JStr "items"); ("count", JInt 1)]) ])
  ∧ ∃ counts,
      respond (get_theme "fantasy_rpg" anonymous (calm "")) one_item_world
      = (Json 200
           (JObj (<["entities" := JArr counts]>
                 (<["description" :=
                      JStr ("API for managing characters, quests and items " ++
                            "in a fantasy world")]>
                 (<["name" := JStr "Fantasy RPG API"]>
                 (<["id" := JStr "fantasy_rpg"]> ∅))))), one_item_world) ∧
      Forall2 (λ entity j,
                 ∃ c, collection_of one_item_world "fantasy_rpg" entity = Some c ∧
                      j = JObj (<["type" := JStr entity]>
                               (<["count" := JInt (Z.of_nat (length c))]> ∅)))
              ["characters"; "quests"; "items"] counts.
Proof.
  split; [vm_compute; reflexivity|].
  apply (get_theme_reports_collection_sizes "fantasy_rpg" anonymous (calm "")
           one_item_world).
  apply reachable_serve_all, reach_initial.
Defined.

Lemma listed_iff_declared {A} (mk : string * A → json) theme_id (l : list (string * A)) :
  (∀ p, field_of (mk p) "id" = Some (JStr p.1)) →
  Some (JStr theme_id) ∈ (λ it, field_of it "id") <$> (mk <$> l) ↔
  is_Some (assoc theme_id l).
Proof.
  intros Hmk. induction l as [|[k v] l IH]; cbn [fmap list_fmap assoc].
  - split; [by intros ?%elem_of_nil | by intros [? ?]].
  - rewrite elem_of_cons, Hmk. cbn [fst]. case_bool_decide as Hk.
    + subst k. split; [by eauto | by left].
    + rewrite <- IH. split; [intros [[= ?]|?]; by subst | by right].
Qed.

(** X18.  The themes that [GET /themes] lists are exactly those that
    [GET /themes/<theme_id>] resolves: in a reachable world the list is
    answered 200, and an id occurs in it exactly when the detail view of
    that id is answered 200. *)
Theorem listed_themes_are_those_that_resolve theme_id req e req' e' w :
  reachable w →
  ∃ items,
    respond (get_themes tt req e) w
    = (Json 200 (JObj {["themes" := JArr items]}), w) ∧
    (Some (JStr theme_id) ∈ (λ it, field_of it "id") <$> items ↔
     status_code (respond (get_theme theme_id req' e') w).1 = 200).
Proof.
  intros Hw. eexists. split; [reflexivity|].
  rewrite listed_iff_declared by (intros [k v]; reflexivity).
  apply reachable_well_formed in Hw as [Hs _].
  unfold respond, get_theme.
  destruct (assoc theme_id THEMES) as [t|] eqn:Ht.
  - destruct (entity_counts_cases theme_id (theme_entities t) w)
      as (counts & Hrun & _); [by eapply declared_collections|].
    unfold bind. rewrite Hrun. cbn. split; [done | by eauto].
  - cbn. split; [by intros [? ?] | discriminate].
Qed.

Lemma listed_themes_are_those_that_resolve_witness :
  ∃ items,
    respond (get_themes tt anonymous (calm "")) fresh_world
    = (Json 200 (JObj {["themes" := JArr items]}), fresh_world) ∧
    (Some (JStr "smart_city") ∈ (λ it, field_of it "id") <$> items ↔
     status_code (respond (get_theme "smart_city" anonymous (calm ""))
                    fresh_world).1 = 200).
Proof.
  apply (listed_themes_are_those_that_resolve "smart_city" anonymous (calm "")
           anonymous (calm "") fresh_world).
  apply reach_initial.
Defined.

(** ** Deleting *)

(** X19.  In a reachable world, on a valid route, with a valid token and no
    fault: a delete of an id no record has is answered 404 and changes
    nothing; otherwise it is answered 200 with the first record that has the
    id under [deleted], and the collection afterwards is the one before
    without that position, the other records in their order. *)
Theorem delete_answers_by_first_match theme_id entity_type entity_id req e w :
  reachable w →
  route_valid (DeleteEntity theme_id entity_type entity_id) = true →
  token req = Some API_TOKEN →
  (draw_gate e <? error_rate (cfg e))%float = false →
  ∃ c, collection_of w theme_id entity_type = Some c ∧
    ((∀ r, r ∈ c → r !! "id" ≠ Some (JStr entity_id)) →
       serve (DeleteEntity theme_id entity_type entity_id) req e w
       = (HttpError 404 ("Entity with ID '" ++ entity_id ++ "' not found"), w)) ∧
    (∀ i (r : gmap string json),
       c !! i = Some r → r !! "id" = Some (JStr entity_id) →
       (∀ m r', m < i → c !! m = Some r' → r' !! "id" ≠ Some (JStr entity_id)) →
       (serve (DeleteEntity theme_id entity_type entity_id) req e w).1
       = Json 200 (JObj (<["message" := JStr ("Entity '" ++ entity_id ++
                                              "' deleted successfully")]>
                        (<["deleted" := JObj r]> ∅))) ∧
       collection_of (serve (DeleteEntity theme_id entity_type entity_id) req e w).2
                     theme_id entity_type
       = Some (take i c ++ drop (S i) c)%list).
Proof.
  intros Hw Hvalid Htok Hgate. apply reachable_well_formed in Hw.
  destruct (check_route_cases theme_id entity_type w) as [[Hv Hc] | [Hc _]];
    [|unfold route_valid in *; simpl in *; congruence].
  destruct (well_formed_collection w theme_id entity_type Hw Hv)
    as (c & bt & Hcoll & Hds & Hg & Hcomplete).
  exists c. split; [done|].
  destruct (serve_entity_route (DeleteEntity theme_id entity_type entity_id)
              req e w eq_refl) as (_ & _ & ->); [|done].
  cbn [guarded_view]. unfold respond.
  rewrite simulate_errors_pass by done.
  unfold delete_entity, bind. rewrite Hc, Hg.
  split.
  - intros Hnone.
    destruct (find_entity_complete c entity_id w Hcomplete)
      as [(i & r & _ & Hi & Hid & _) | [-> _]]; [|done].
    exfalso. apply (Hnone r); [by eapply list_elem_of_lookup_2 | done].
  - intros i r Hi Hid Hmin.
    rewrite (find_entity_first c entity_id 0 w i r); try done.
    + cbn [Nat.add]. rewrite Hg.
      pose proof (put_collection_cases theme_id entity_type (delete i c) w) as Hp.
      rewrite Hds in Hp. rewrite Hp. cbn. split; [done|].
      rewrite collection_of_written. by rewrite delete_take_drop.
    + intros m r' Hm Hr'. split; [|by eapply Hmin].
      apply (Hcomplete r'); [by eapply list_elem_of_lookup_2|].
      unfold reserved_fields. set_solver.
Qed.

Lemma delete_answers_by_first_match_witness :
  (serve (DeleteEntity "fantasy_rpg" "items" "1") (authorized None) (calm "")
         one_item_world).1
  = Json 200
      (JObj (<["message" := JStr "Entity '1' deleted successfully"]>
            (<["deleted" :=
                 JObj (mk_record [("id", JStr "1"); ("name", JStr "X");
                                  ("description", JStr "Y");
                                  ("created_at", JStr "2024-01-01 10:00:00")])]> ∅)))
  ∧ collection_of (serve (DeleteEntity "fantasy_rpg" "items" "1")
                     (authorized None) (calm "") one_item_world).2
                  "fantasy_rpg" "items"
    = Some [].
Proof.
  destruct (delete_answers_by_first_match "fantasy_rpg" "items" "1"
              (authorized None) (calm "") one_item_world)
    as (c & Hc & _ & Hdeleted).
  - apply reachable_serve_all, reach_initial.
  - reflexivity.
  - reflexivity.
  - reflexivity.
  - assert (collection_of one_item_world "fantasy_rpg" "items"
            = Some [mk_record [("id", JStr "1"); ("name", JStr "X");
                               ("description", JStr "Y");
                               ("created_at", JStr "2024-01-01 10:00:00")]])
      as Hone by (vm_compute; reflexivity).
    rewrite Hone in Hc. injection Hc as <-.
    apply (Hdeleted 0%nat); [reflexivity | vm_compute; reflexivity |].
    intros m r' Hm. lia.
Defined.

(** ** Instances of the create and delete lemmas *)

Lemma create_entity_assigns_witness :
  ∃ c (fields new_entity : gmap string json),
    201 = 201 ∧
    collection_of fresh_world "fantasy_rpg" "items" = Some c ∧
    body (authorized (Some body_xy_id99)) = Some (JObj fields) ∧
    is_Some (fields !! "name") ∧ is_Some (fields !! "description") ∧
    payload_of (serve (CreateEntity "fantasy_rpg" "items")
                  (authorized (Some body_xy_id99)) (calm "2024-01-01 10:00:00")
                  fresh_world).1 = JObj new_entity ∧
    collection_of (serve (CreateEntity "fantasy_rpg" "items")
                     (authorized (Some body_xy_id99)) (calm "2024-01-01 10:00:00")
                     fresh_world).2 "fantasy_rpg" "items"
    = Some (c ++ [new_entity])%list ∧
    new_entity !! "created_at" = Some (JStr "2024-01-01 10:00:00") ∧
    new_entity !! "id" = match fields !! "id" with
                         | Some v => Some v
                         | None => Some (JStr (pretty (length c + 1)%nat))
                         end ∧
    (∀ key, key ∉ ["id"; "created_at"] → new_entity !! key = fields !! key).
Proof.
  apply (create_entity_assigns "fantasy_rpg" "items"
           (authorized (Some body_xy_id99)) (calm "2024-01-01 10:00:00")
           fresh_world 201).
  vm_compute. reflexivity.
Defined.

Lemma get_after_delete_of_unique_id_witness :
  serve (GetEntity "fantasy_rpg" "items" "1") (authorized None) (calm "")
    (serve (DeleteEntity "fantasy_rpg" "items" "1") (authorized None) (calm "")
       one_item_world).2
  = (HttpError 404 "Entity with ID '1' not found",
     (serve (DeleteEntity "fantasy_rpg" "items" "1") (authorized None) (calm "")
        one_item_world).2).
Proof.
  apply (get_after_delete_of_unique_id "fantasy_rpg" "items" "1"
           (authorized None) (calm "") one_item_world 200
           (payload_of (serve (DeleteEntity "fantasy_rpg" "items" "1")
                          (authorized None) (calm "") one_item_world).1)).
  - vm_compute. reflexivity.
  - intros c Hc.
    assert (reachable one_item_world) as Hw
      by apply reachable_serve_all, reach_initial.
    apply reachable_well_formed in Hw as [_ Hcomplete].
    split.
    + intros r Hr. apply (Hcomplete _ _ c r Hc Hr).
      unfold reserved_fields. by left.
    + assert (length <$> collection_of one_item_world "fantasy_rpg" "items"
              = Some 1) as Hlen by (vm_compute; reflexivity).
      rewrite Hc in Hlen. injection Hlen as Hlen.
      intros i j r r' Hi Hj _ _.
      apply lookup_lt_Some in Hi, Hj. lia.
  - reflexivity.
  - reflexivity.
Defined.

(** ** The retrying test client *)

Lemma calls_of_app l1 l2 :
  calls_of (l1 ++ l2) = (calls_of l1 ++ calls_of l2)%list.
Proof. apply omap_app. Qed.

Lemma sleeps_of_app l1 l2 :
  sleeps_of (l1 ++ l2) = (sleeps_of l1 ++ sleeps_of l2)%list.
Proof. apply omap_app. Qed.

Lemma log_request_quiet method url headers data :
  calls_of (log_request method url headers data) = [] ∧
  sleeps_of (log_request method url headers data) = [].
Proof.
  unfold log_request. rewrite !calls_of_app, !sleeps_of_app.
  destruct (bool_decide (headers = ∅)), data as [d|]; try destruct (truthy d); done.
Qed.

Lemma log_response_quiet r :
  calls_of (log_response r).1 = [] ∧ sleeps_of (log_response r).1 = [] ∧
  (log_response r).2 = response_json r.
Proof. unfold log_response. by destruct (response_json r). Qed.

(** What the rest of [make_request] adds to the trace of the loop. *)
Lemma make_request_cases net method endpoint expected headers data retry delay :
  let c := Call method (BASE_URL ++ endpoint)
             (match headers with
              | Some h => if bool_decide (h = ∅) then HEADERS else h
              | None => HEADERS
              end) data 10 in
  let loop := request_loop net c retry delay (Z.to_nat (retry + 1)) 0 in
  let run := make_request net method endpoint expected headers data retry delay in
  calls_of run.1 = calls_of loop.1 ∧
  sleeps_of run.1 = sleeps_of loop.1 ∧
  run.2 = match loop.2 with
          | Broke r => Returned r (response_json r)
          | Exhausted => Raises ClientAttributeError
          | LoopRaised e => Raises e
          end.
Proof.
  intros c loop run. subst run loop c. unfold make_request. cbv zeta.
  set (h := match headers with
            | Some h => if bool_decide (h = ∅) then HEADERS else h
            | None => HEADERS
            end).
  destruct (log_request_quiet method (BASE_URL ++ endpoint) h data) as [Hlc Hls].
  destruct (request_loop net _ retry delay (Z.to_nat (retry + 1)) 0)
    as [trace [r| |e]]; cbn [fst snd].
  - pose proof (log_response_quiet r) as (Hc & Hs & Hj).
    destruct (log_response r) as [lines content]. cbn [fst snd] in *. subst content.
    cbn [fst snd].
    rewrite !calls_of_app, !sleeps_of_app, Hc, Hs, Hlc, Hls.
    destruct expected as [n|];
      [destruct (negb (n =? 0)%nat && negb (response_status r =? n)%nat)|];
      cbn; by rewrite !app_nil_r.
  - rewrite !calls_of_app, !sleeps_of_app, Hlc, Hls.
    cbn. by rewrite !app_nil_r.
  - by rewrite !calls_of_app, !sleeps_of_app, Hlc, Hls.
Qed.







Lemma request_loop_calls net c retry delay :
  ∀ remaining attempt c',
    c' ∈ calls_of (request_loop net c retry delay remaining attempt).1 → c' = c.
Proof.
  induction remaining as [|remaining IH]; intros attempt c'; cbn [request_loop].
  - by intros ?%elem_of_nil.
  - destruct (net attempt) as [r|e].
    + cbn. by intros ->%list_elem_of_singleton.
    + destruct (Z.of_nat attempt <? retry)%Z.
      * destruct (Qle_bool 0 delay).
        -- specialize (IH (S attempt) c').
           destruct (request_loop net c retry delay remaining (S attempt)).
           cbn in *. intros [->|Hin]%elem_of_cons; [done | by apply IH].
        -- cbn. by intros ->%list_elem_of_singleton.
      * cbn. by intros ->%list_elem_of_singleton.
Qed.

(** X24.  [headers or HEADERS]: when [make_request] is given no headers or
    an empty dict of headers, every call of [requests.request] it makes
    carries the default headers, token included; given a non-empty dict, it
    carries exactly that dict.  Every call goes to [BASE_URL + endpoint]
    with the timeout 10. *)
Theorem make_request_defaults_empty_headers
    net method endpoint expected headers data retry delay c :
  c ∈ calls_of (make_request net method endpoint expected headers data
                  retry delay).1 →
  call_url c = BASE_URL ++ endpoint ∧ call_timeout c = 10 ∧
  call_method c = method ∧ call_json c = data ∧
  match headers with
  | None => call_headers c = HEADERS
  | Some h =>
      if bool_decide (h = ∅)
      then call_headers c = HEADERS ∧
           call_headers c !! "X-API-Token" = Some "student_test_token"
      else call_headers c = h
  end.
Proof.
  destruct (make_request_cases net method endpoint expected headers data retry delay)
    as (-> & _ & _).
  intros ->%request_loop_calls. cbn.
  do 4 (split; [done|]).
  destruct headers as [h|]; [|done]. by case_bool_decide.
Qed.

Lemma make_request_defaults_empty_headers_witness :
  Forall (λ c, call_headers c !! "X-API-Token" = Some "student_test_token")
         (calls_of (make_request (flaky 0 teapot) "GET" "/themes" None (Some ∅)
                      None 2 1).1).
Proof.
  apply Forall_forall. intros c Hc.
  apply (make_request_defaults_empty_headers (flaky 0 teapot) "GET" "/themes"
           None (Some ∅) None 2 1 c Hc).
Defined.

(** X25.  With a negative [retry] the loop body never runs: no request is
    sent, [response] is still [None] and the call ends in an
    [AttributeError] at [log_response]. *)
Theorem make_request_negative_retry
    net method endpoint expected headers data retry delay :
  (retry < 0)%Z →
  let run := make_request net method endpoint expected headers data retry delay in
  run.2 = Raises ClientAttributeError ∧ calls_of run.1 = [] ∧ sleeps_of run.1 = [].
Proof.
  intros Hneg run. subst run.
  destruct (make_request_cases net method endpoint expected headers data retry delay)
    as (-> & -> & ->).
  replace (Z.to_nat (retry + 1)) with 0 by lia. done.
Qed.

Lemma make_request_negative_retry_witness :
  (make_request (flaky 0 teapot) "GET" "/themes" None None None (-1) 1).2
  = Raises ClientAttributeError.
Proof.
  apply (make_request_negative_retry (flaky 0 teapot) "GET" "/themes" None None
           None (-1) 1).
  lia.
Defined.
